(** * Podcast Explorer: the catalog query engine, genre tags and show detail

    A shallow embedding of the logic of the React application:

    - [PodcastContext] : the [PodcastProvider] component (search / genre /
      sort / page state, the reset effect, the responsive page size,
      [applyFilters] and the pagination arithmetic);
    - [GenreTags]      : the label lookup of the [GenreTags] component;
    - [PodcastDetail]  : the season selection of the [PodcastDetail]
      component.

    JavaScript values are modelled as follows.  A string is the list of its
    UTF-16 code units.  A number that the code only ever uses as an integer
    (array lengths, page numbers, pixel widths, genre ids, time values) is a
    [Z]; the one real division, [filtered.length / pageSize], is carried out
    in [Q] before [Math.ceil] rounds it.  The functions whose result is
    fixed by the host's Unicode and locale data ([toLowerCase],
    [localeCompare], [Number] on strings) are the fields of the class
    [Host]. *)

From Stdlib Require Import ZArith QArith Qround List Bool Lia.
From Stdlib Require Import Permutation Sorted String Ascii DecimalString.
From Stdlib Require DecimalZ.
Import ListNotations.
Open Scope Z_scope.

(* ================================================================= *)
(** ** JavaScript built-ins used by the application *)

Module JS.

(** A JavaScript string: its UTF-16 code units. *)
Definition jsstring : Type := list N.

(** String literals of the source text (all of them are ASCII). *)
Definition str (s : string) : jsstring :=
  map N_of_ascii (list_ascii_of_string s).

Fixpoint eqb (a b : jsstring) : bool :=
  match a, b with
  | [], [] => true
  | x :: a', y :: b' => N.eqb x y && eqb a' b'
  | _, _ => false
  end.

(** [WhiteSpace] and [LineTerminator] code units, the ones
    [String.prototype.trim] strips. *)
Definition isWhiteSpace (c : N) : bool :=
  existsb (N.eqb c)
    [9; 10; 11; 12; 13; 32; 160; 5760; 8232; 8233; 8239; 8287; 12288; 65279]%N
  || (N.leb 8192 c && N.leb c 8202).

Fixpoint trimStart (s : jsstring) : jsstring :=
  match s with
  | c :: s' => if isWhiteSpace c then trimStart s' else s
  | [] => []
  end.

Definition trimEnd (s : jsstring) : jsstring := rev (trimStart (rev s)).

(** [s.trim()] *)
Definition trim (s : jsstring) : jsstring := trimEnd (trimStart s).

(** A string that is empty or consists of white space only. *)
Definition blank (s : jsstring) : Prop :=
  Forall (fun c => isWhiteSpace c = true) s.

(** Truthiness of a string: every string but the empty one. *)
Definition truthy (s : jsstring) : bool :=
  match s with [] => false | _ :: _ => true end.

Fixpoint startsWith (s q : jsstring) : bool :=
  match q, s with
  | [], _ => true
  | _ :: _, [] => false
  | y :: q', x :: s' => N.eqb x y && startsWith s' q'
  end.

(** [s.includes(q)] : [q] occurs in [s] as a run of code units. *)
Fixpoint String_includes (s q : jsstring) : bool :=
  startsWith s q ||
  match s with
  | [] => false
  | _ :: s' => String_includes s' q
  end.

(** [Math.ceil(a / b)] for integers [a] and [b <> 0]: the quotient is
    formed exactly and then rounded up. *)
Definition Math_ceil_div (a b : Z) : Z :=
  Qceiling (inject_Z a / inject_Z b).

(** [arr.slice(start, end)], with the relative-index rules of
    [Array.prototype.slice] for negative and oversized arguments. *)
Definition slice {A : Type} (arr : list A) (start end_ : Z) : list A :=
  let len := Z.of_nat (List.length arr) in
  let k := if start <? 0 then Z.max (len + start) 0 else Z.min start len in
  let final := if end_ <? 0 then Z.max (len + end_) 0 else Z.min end_ len in
  firstn (Z.to_nat (final - k)) (skipn (Z.to_nat k) arr).

(** [arr[i]] : [None] stands for [undefined]. *)
Definition index {A : Type} (arr : list A) (i : Z) : option A :=
  if i <? 0 then None else nth_error arr (Z.to_nat i).

(** [Array.prototype.sort(comparefn)].  The sort is stable (ECMAScript
    2019), and [x] is placed before [y] unless [comparefn(x, y) > 0].
    It is modelled by the stable insertion sort: an element is inserted
    in front of the first later element that it does not exceed. *)
Section Sort.
Context {A : Type} (comparefn : A -> A -> Z).

Fixpoint insert (x : A) (sorted : list A) : list A :=
    match sorted with
    | [] => [x]
    | y :: rest =>
        if comparefn x y <=? 0 then x :: y :: rest
        else y :: insert x rest
    end.

Fixpoint sort (arr : list A) : list A :=
    match arr with
    | [] => []
    | x :: rest => insert x (sort rest)
    end.
End Sort.

(** [String(n)] for an integer [n], as a template literal prints it. *)
Definition Number_toString (n : Z) : jsstring :=
  str (NilZero.string_of_int (Z.to_int n)).

End JS.

Import JS.

(** The host-defined string functions.  [Number s] is [None] when the
    string does not denote an integer. *)
Class Host : Type := {
  toLowerCase   : jsstring -> jsstring;
  localeCompare : jsstring -> jsstring -> Z;
  Number        : jsstring -> option Z
}.

(** What ECMAScript requires of [localeCompare]: a consistent comparator.
    The sign flips when the arguments are swapped, and "not greater" is
    transitive. *)
Class ConsistentComparator (H : Host) : Prop := {
  localeCompare_swap :
    forall a b, Z.sgn (localeCompare b a) = - Z.sgn (localeCompare a b);
  localeCompare_trans :
    forall a b c,
      localeCompare a b <= 0 -> localeCompare b c <= 0 ->
      localeCompare a c <= 0
}.

(* ================================================================= *)
(** ** The provider, [PodcastProvider] *)

Module PodcastContext.

(** The [Podcast] typedef.  [updated] is the time value (milliseconds since
    the epoch) that [new Date(p.updated)] yields for the ISO string of the
    dataset; the comparators only ever subtract two such values. *)
Record Podcast : Type := {
  id      : Z;
  title   : jsstring;
  updated : Z;
  genres  : list Z
}.

(** The [useState] cells of [PodcastProvider]. *)
Record State : Type := {
  allPodcasts : list Podcast;
  loading     : bool;
  error       : option jsstring;
  search      : jsstring;
  sortKey     : jsstring;
  genre       : jsstring;
  page        : Z;
  pageSize    : Z
}.

(** The initial values passed to [useState]. *)
Definition initialState : State := {|
  allPodcasts := [];
  loading     := true;
  error       := None;
  search      := str "";
  sortKey     := str "date-desc";
  genre       := str "all";
  page        := 1;
  pageSize    := 10
|}.

(** The keys of [SORT_OPTIONS], in the order of the sort control (the
    display labels are left out). *)
Definition SORT_OPTIONS : list jsstring :=
  [ str "default"; str "date-desc"; str "date-asc";
    str "title-asc"; str "title-desc" ].

(** *** State setters *)

Definition setAllPodcasts (v : list Podcast) (st : State) : State :=
  {| allPodcasts := v; loading := loading st; error := error st;
     search := search st; sortKey := sortKey st; genre := genre st;
     page := page st; pageSize := pageSize st |}.

Definition setLoading (v : bool) (st : State) : State :=
  {| allPodcasts := allPodcasts st; loading := v; error := error st;
     search := search st; sortKey := sortKey st; genre := genre st;
     page := page st; pageSize := pageSize st |}.

Definition setError (v : option jsstring) (st : State) : State :=
  {| allPodcasts := allPodcasts st; loading := loading st; error := v;
     search := search st; sortKey := sortKey st; genre := genre st;
     page := page st; pageSize := pageSize st |}.

Definition setSearch (v : jsstring) (st : State) : State :=
  {| allPodcasts := allPodcasts st; loading := loading st; error := error st;
     search := v; sortKey := sortKey st; genre := genre st;
     page := page st; pageSize := pageSize st |}.

Definition setSortKey (v : jsstring) (st : State) : State :=
  {| allPodcasts := allPodcasts st; loading := loading st; error := error st;
     search := search st; sortKey := v; genre := genre st;
     page := page st; pageSize := pageSize st |}.

Definition setGenre (v : jsstring) (st : State) : State :=
  {| allPodcasts := allPodcasts st; loading := loading st; error := error st;
     search := search st; sortKey := sortKey st; genre := v;
     page := page st; pageSize := pageSize st |}.

(** [setPage(n)] stores [n] as it is. *)
Definition setPage (n : Z) (st : State) : State :=
  {| allPodcasts := allPodcasts st; loading := loading st; error := error st;
     search := search st; sortKey := sortKey st; genre := genre st;
     page := n; pageSize := pageSize st |}.

Definition setPageSize (v : Z) (st : State) : State :=
  {| allPodcasts := allPodcasts st; loading := loading st; error := error st;
     search := search st; sortKey := sortKey st; genre := genre st;
     page := page st; pageSize := v |}.

(** *** The responsive page size

    [calculatePageSize] reads [window.innerWidth] and calls [setPageSize].
    [pageSizeFor] is the value it stores for a given width. *)
Definition pageSizeFor (screenW : Z) : Z :=
  if screenW <=? 1024 then 10
  else
    let cardWidth := 260 in
    let maxRows := 2 in
    let columns := screenW / cardWidth in
    columns * maxRows.

Definition calculatePageSize (screenW : Z) (st : State) : State :=
  setPageSize (pageSizeFor screenW) st.

(** *** Events and the reset effect

    What can happen to the provider after it is mounted: a consumer calls
    one of the setters of the context value, the fetch reports through
    [setAllPodcasts] / [setError] / [setLoading], or the window is
    resized. *)
Inductive Event : Type :=
| SetSearch (text : jsstring)
| SetSortKey (key : jsstring)
| SetGenre (g : jsstring)
| SetPage (n : Z)
| Resize (screenW : Z)
| SetAllPodcasts (data : list Podcast)
| SetError (e : option jsstring)
| SetLoading (b : bool).

Definition dispatch (ev : Event) (st : State) : State :=
  match ev with
  | SetSearch text      => setSearch text st
  | SetSortKey key      => setSortKey key st
  | SetGenre g          => setGenre g st
  | SetPage n           => setPage n st
  | Resize screenW      => calculatePageSize screenW st
  | SetAllPodcasts data => setAllPodcasts data st
  | SetError e          => setError e st
  | SetLoading b        => setLoading b st
  end.

(** The dependency list [[search, sortKey, genre]] of the reset effect is
    unchanged between two renders. *)
Definition sameFilters (old new : State) : bool :=
  eqb (search old) (search new) && eqb (sortKey old) (sortKey new)
  && eqb (genre old) (genre new).

(** [useEffect(() => setPage(1), [search, sortKey, genre])]: after a render
    in which one of the three dependencies differs from the previous render
    the effect runs and stores page 1. *)
Definition resetEffect (old new : State) : State :=
  if sameFilters old new then new else setPage 1 new.

(** One event, followed by the effect it triggers: the state the provider
    settles in. *)
Definition step (st : State) (ev : Event) : State :=
  resetEffect st (dispatch ev st).

Definition run (st : State) (evs : list Event) : State :=
  fold_left step evs st.

(** Mounting runs both effects once: [setPage(1)] and
    [calculatePageSize()] for the width of the window at that time. *)
Definition mount (screenW : Z) : State :=
  calculatePageSize screenW (setPage 1 initialState).

(** Events that do not come from the user: the fetch and the window. *)
Definition systemEvent (ev : Event) : Prop :=
  match ev with
  | Resize _ | SetAllPodcasts _ | SetError _ | SetLoading _ => True
  | SetSearch _ | SetSortKey _ | SetGenre _ | SetPage _ => False
  end.

(** *** [applyFilters] *)
Section Derivation.
Context {H : Host}.

(** [p.genres.includes(Number(genre))] *)
Definition genresInclude (p : Podcast) (g : jsstring) : bool :=
  match Number g with
  | Some n => existsb (Z.eqb n) (genres p)
  | None => false
  end.

(** The search step: the [if (search.trim())] block. *)
Definition filterBySearch (search : jsstring) (data : list Podcast)
  : list Podcast :=
  if truthy (trim search) then
    let q := toLowerCase search in
    filter (fun p => String_includes (toLowerCase (title p)) q) data
  else data.

(** The genre step: the [if (genre !== "all")] block. *)
Definition filterByGenre (genre : jsstring) (data : list Podcast)
  : list Podcast :=
  if negb (eqb genre (str "all")) then
    filter (fun p => genresInclude p genre) data
  else data.

(** The four comparators handed to [data.sort]. *)
Definition titleAsc (a b : Podcast) : Z := localeCompare (title a) (title b).
Definition titleDesc (a b : Podcast) : Z := localeCompare (title b) (title a).
Definition dateAsc (a b : Podcast) : Z := updated a - updated b.
Definition dateDesc (a b : Podcast) : Z := updated b - updated a.

(** The [switch (sortKey)]. *)
Definition sortByKey (sortKey : jsstring) (data : list Podcast)
  : list Podcast :=
  if eqb sortKey (str "title-asc") then sort titleAsc data
  else if eqb sortKey (str "title-desc") then sort titleDesc data
  else if eqb sortKey (str "date-asc") then sort dateAsc data
  else if eqb sortKey (str "date-desc") then sort dateDesc data
  else data.

Definition applyFilters (st : State) : list Podcast :=
  let data := allPodcasts st in
  let data := filterBySearch (search st) data in
  let data := filterByGenre (genre st) data in
  sortByKey (sortKey st) data.

(** *** Pagination: the body of the provider after [applyFilters] *)

Definition totalPagesFor (filteredLength pageSize : Z) : Z :=
  Z.max 1 (Math_ceil_div filteredLength pageSize).

Definition filtered (st : State) : list Podcast := applyFilters st.

Definition totalPages (st : State) : Z :=
  totalPagesFor (Z.of_nat (List.length (filtered st))) (pageSize st).

Definition currentPage (st : State) : Z :=
  Z.min (page st) (totalPages st).

Definition paged (st : State) : list Podcast :=
  slice (filtered st)
        ((currentPage st - 1) * pageSize st)
        (currentPage st * pageSize st).

(** The part of the context value that is derived on every render. *)
Record Value : Type := {
  value_page             : Z;
  value_totalPages       : Z;
  value_podcasts         : list Podcast;
  value_allPodcastsCount : Z
}.

Definition value (st : State) : Value := {|
  value_page             := currentPage st;
  value_totalPages       := totalPages st;
  value_podcasts         := paged st;
  value_allPodcastsCount := Z.of_nat (List.length (filtered st))
|}.

End Derivation.

End PodcastContext.

(* ================================================================= *)
(** ** The [GenreTags] component *)

Module GenreTags.

(** An entry of the static genre table [genres] of [data.js]. *)
Record Genre : Type := {
  id    : Z;
  title : jsstring
}.

Section WithGenreMap.
(** The table itself is imported from [data.js]; the component only
    searches it. *)
Variable genreMap : list Genre.

(** The text of one tag:
    [match ? match.title : `Unknown (${id})`]. *)
Definition tagText (genreId : Z) : jsstring :=
  match find (fun genre => Z.eqb (id genre) genreId) genreMap with
  | Some match_ => title match_
  | None => str "Unknown (" ++ Number_toString genreId ++ str ")"
  end.

(** The rendered spans, as pairs of key and text.  The [genres] prop is
    [None] when the caller passes [undefined]; [genres.map] then throws,
    which is the result [None]. *)
Definition GenreTags (genres : option (list Z))
  : option (list (Z * jsstring)) :=
  match genres with
  | None => None
  | Some ids => Some (map (fun genreId => (genreId, tagText genreId)) ids)
  end.

End WithGenreMap.

End GenreTags.

(* ================================================================= *)
(** ** The [PodcastDetail] component *)

Module PodcastDetail.

Record Episode : Type := {
  ep_title       : jsstring;
  ep_description : jsstring
}.

Record Season : Type := {
  season_title       : jsstring;
  season_description : jsstring;
  season_image       : jsstring;
  episodes           : list Episode
}.

(** The [podcast] prop: a fetched show with its seasons. *)
Record Podcast : Type := {
  title       : jsstring;
  description : jsstring;
  image       : jsstring;
  seasons     : list Season
}.

(** A mounted component: the current prop and the [useState] cell. *)
Record Instance : Type := {
  podcast             : Podcast;
  selectedSeasonIndex : Z
}.

(** [useState(0)] *)
Definition mount (p : Podcast) : Instance :=
  {| podcast := p; selectedSeasonIndex := 0 |}.

(** [const season = podcast.seasons[selectedSeasonIndex]] *)
Definition season (inst : Instance) : option Season :=
  index (seasons (podcast inst)) (selectedSeasonIndex inst).

(** The [value]s of the [<option>]s of the season dropdown. *)
Definition optionValues (p : Podcast) : list Z :=
  map Z.of_nat (seq 0 (List.length (seasons p))).

(** What the season part of the view shows. *)
Record View : Type := {
  totalSeasons   : Z;
  totalEpisodes  : Z;
  seasonCover    : jsstring;
  seasonNumber   : Z;
  seasonHeading  : jsstring;
  seasonEpisodes : Z;
  dropdownValue  : Z;
  dropdown       : list Z;
  episodeCards   : list (Z * jsstring)
}.

(** One render.  When [season] is [undefined] the first property read,
    [season.image], throws: the result is [None]. *)
Definition render (inst : Instance) : option View :=
  let p := podcast inst in
  match season inst with
  | None => None
  | Some s =>
      Some {|
        totalSeasons   := Z.of_nat (List.length (seasons p));
        totalEpisodes  :=
          fold_left (fun acc s' => acc + Z.of_nat (List.length (episodes s')))
                    (seasons p) 0;
        seasonCover    := season_image s;
        seasonNumber   := selectedSeasonIndex inst + 1;
        seasonHeading  := season_title s;
        seasonEpisodes := Z.of_nat (List.length (episodes s));
        dropdownValue  := selectedSeasonIndex inst;
        dropdown       := optionValues p;
        episodeCards   :=
          combine (map (fun i => Z.of_nat i + 1)
                       (seq 0 (List.length (episodes s))))
                  (map ep_title (episodes s))
      |}
  end.

(** What can happen to a mounted component: the user picks an entry of the
    dropdown ([onChange] stores [Number(e.target.value)]), or the parent
    renders it again with another [podcast]. *)
Inductive Event : Type :=
| Select (value : Z)
| Rerender (p : Podcast).

(** The next instance; [None] when the event cannot occur (the view did not
    render, or the dropdown has no such entry). *)
Definition step (inst : Instance) (ev : Event) : option Instance :=
  match ev with
  | Select v =>
      match render inst with
      | Some view =>
          if existsb (Z.eqb v) (dropdown view)
          then Some {| podcast := podcast inst; selectedSeasonIndex := v |}
          else None
      | None => None
      end
  | Rerender p =>
      Some {| podcast := p; selectedSeasonIndex := selectedSeasonIndex inst |}
  end.

Fixpoint run (inst : Instance) (evs : list Event) : option Instance :=
  match evs with
  | [] => Some inst
  | ev :: evs' =>
      match step inst ev with
      | Some inst' => run inst' evs'
      | None => None
      end
  end.

Definition isSelect (ev : Event) : Prop :=
  match ev with Select _ => True | Rerender _ => False end.

End PodcastDetail.

(* ================================================================= *)
(** ** A host to run the model on *)

Module SampleHost.

(** Lower-casing of the ASCII letters; other code units are kept. *)
Definition lowerUnit (c : N) : N :=
  if (N.leb 65 c && N.leb c 90)%bool then (c + 32)%N else c.

(** The singleton canonical decompositions of the letter-like symbols:
    KELVIN SIGN, ANGSTROM SIGN and OHM SIGN are canonically equivalent to
    K, A WITH RING ABOVE and OMEGA. *)
Definition canonicalUnit (c : N) : N :=
  if N.eqb c 8490 then 75
  else if N.eqb c 8491 then 197
  else if N.eqb c 8486 then 937
  else c.

(** The collation: code-unit order on the canonical spellings. *)
Definition collate (a b : jsstring) : comparison :=
  list_compare N.compare (map canonicalUnit a) (map canonicalUnit b).

Definition digitValue (c : N) : option Z :=
  if (N.leb 48 c && N.leb c 57)%bool then Some (Z.of_N c - 48) else None.

(** [Number] on the strings a [<select>] of genre ids produces: a run of
    decimal digits (the empty string converts to 0). *)
Definition parseDigits (s : jsstring) : option Z :=
  fold_left
    (fun acc c =>
       match acc, digitValue c with
       | Some n, Some d => Some (10 * n + d)
       | _, _ => None
       end)
    s (Some 0).

(** [localeCompare] returns -1, 0 or 1 after [collate], so that, as
    ECMAScript requires, canonically equivalent strings compare equal. *)
#[export] Instance host : Host := {|
  toLowerCase   := map lowerUnit;
  localeCompare := fun a b =>
                     match collate a b with Lt => -1 | Eq => 0 | Gt => 1 end;
  Number        := parseDigits
|}.

End SampleHost.

(* ================================================================= *)
(** ** Sample data *)

Module Samples.

Import PodcastContext.

Definition show (i : Z) (t : string) (u : Z) (gs : list Z) : Podcast :=
  {| id := i; title := str t; updated := u; genres := gs |}.

(** A small catalog; [updated] in milliseconds since the epoch. *)
Definition catalog : list Podcast :=
  [ show 1 "Something Was Wrong" 1667347200000 [1; 2];
    show 2 "This Is Actually Happening" 1667347200000 [2];
    show 3 "Scamfluencers" 1678233600000 [3; 99];
    show 4 "american scandal" 1647302400000 [3];
    show 5 "Business Wars" 1678233600000 [7] ].

(** Twenty-five shows, numbered 0 to 24, already in date order. *)
Definition twentyFive : list Podcast :=
  map (fun i => {| id := Z.of_nat i; title := str "Show";
                   updated := 1700000000000 - Z.of_nat i; genres := [] |})
      (seq 0 25).

(** Two shows whose titles are different strings, U+212B ANGSTROM SIGN and
    U+00C5 LATIN CAPITAL LETTER A WITH RING ABOVE, and canonically
    equivalent. *)
Definition angstroms : list Podcast :=
  [ {| id := 1; title := [8491%N]; updated := 0; genres := [] |};
    {| id := 2; title := [197%N];  updated := 0; genres := [] |} ].

(** Part of a genre table. *)
Definition genreTable : list GenreTags.Genre :=
  [ {| GenreTags.id := 1; GenreTags.title := str "Personal Growth" |};
    {| GenreTags.id := 2; GenreTags.title := str "Investigative Journalism" |};
    {| GenreTags.id := 3; GenreTags.title := str "History" |} ].

Definition seasonOf (t : string) (n : nat) : PodcastDetail.Season :=
  {| PodcastDetail.season_title := str t;
     PodcastDetail.season_description := str "";
     PodcastDetail.season_image := str "cover.png";
     PodcastDetail.episodes :=
       repeat {| PodcastDetail.ep_title := str "Episode";
                 PodcastDetail.ep_description := str "" |} n |}.

Definition threeSeasons : PodcastDetail.Podcast :=
  {| PodcastDetail.title := str "Scamfluencers";
     PodcastDetail.description := str "";
     PodcastDetail.image := str "show.png";
     PodcastDetail.seasons :=
       [seasonOf "One" 2; seasonOf "Two" 3; seasonOf "Three" 1] |}.

Definition oneSeason : PodcastDetail.Podcast :=
  {| PodcastDetail.title := str "Business Wars";
     PodcastDetail.description := str "";
     PodcastDetail.image := str "show.png";
     PodcastDetail.seasons := [seasonOf "Only" 4] |}.

(** A show that arrives without seasons. *)
Definition noSeasons : PodcastDetail.Podcast :=
  {| PodcastDetail.title := str "Untitled";
     PodcastDetail.description := str "";
     PodcastDetail.image := str "";
     PodcastDetail.seasons := [] |}.

End Samples.

(* ================================================================= *)
(** ** The pages: [PodcastCard], [ShowDetail] and [Home] *)

(** Truthiness of a state cell that holds [null] or a message. *)
Definition messageTruthy (e : option jsstring) : bool :=
  match e with
  | Some m => truthy m
  | None => false
  end.

(** What [`${error}`] prints: the message, or [null]. *)
Definition messageText (e : option jsstring) : jsstring :=
  match e with
  | Some m => m
  | None => str "null"
  end.

Module PodcastCard.

(** The arguments of a [navigate] call: the path and the [state] option. *)
Record Navigation : Type := {
  path      : jsstring;
  nav_state : option (list Z)
}.

(** [handleNavigate(preview)]:
    [navigate(`/show/${preview.id}`, { state: { genres: preview.genres } })] *)
Definition handleNavigate (preview : PodcastContext.Podcast) : Navigation :=
  {| path := str "/show/" ++ Number_toString (PodcastContext.id preview);
     nav_state := Some (PodcastContext.genres preview) |}.

End PodcastCard.

Module ShowDetail.

(** The [useState] cells of the page.  [podcast] is [None] while it still
    holds the initial [[]], which has no [seasons]. *)
Record State : Type := {
  podcast : option PodcastDetail.Podcast;
  loading : bool;
  error   : option jsstring
}.

Definition initialState : State :=
  {| podcast := None; loading := true; error := None |}.

(** [const { genres } = location.state || {}]: [location.state] is [None]
    when the page was not reached through [navigate] with a state. *)
Definition genresOf (locationState : option (list Z)) : option (list Z) :=
  match locationState with
  | Some genres => Some genres
  | None => None
  end.

Inductive Part : Type :=
| LoadingPart (message : jsstring)
| ErrorPart (message : jsstring)
| DetailPart (tags : list (Z * jsstring)) (view : PodcastDetail.View).

Section WithGenreMap.
Variable genreMap : list GenreTags.Genre.

(** [<PodcastDetail podcast={podcast} genres={genres} />] with the season
    index [selected] in its state cell: the season view and, inside it,
    [<GenreTags genres={genres} />].  [None] when either throws. *)
Definition detail (p : option PodcastDetail.Podcast) (selected : Z)
           (genres : option (list Z)) : option Part :=
  match p with
  | None => None
  | Some p' =>
      match PodcastDetail.render
              {| PodcastDetail.podcast := p';
                 PodcastDetail.selectedSeasonIndex := selected |},
            GenreTags.GenreTags genreMap genres with
      | Some view, Some tags => Some (DetailPart tags view)
      | _, _ => None
      end
  end.

(** One render of the page: the three conditional blocks of the JSX. *)
Definition ShowDetail (locationState : option (list Z)) (st : State)
           (selected : Z) : option (list Part) :=
  let genres := genresOf locationState in
  let loadingBlock :=
    if loading st then [LoadingPart (str "Loading podcast...")] else [] in
  let errorBlock :=
    if messageTruthy (error st)
    then [ErrorPart (str "Error occurred while fetching podcast: "
                     ++ messageText (error st))]
    else [] in
  if negb (loading st) && negb (messageTruthy (error st)) then
    match detail (podcast st) selected genres with
    | Some part => Some (loadingBlock ++ errorBlock ++ [part])
    | None => None
    end
  else Some (loadingBlock ++ errorBlock).

End WithGenreMap.

End ShowDetail.

Module Home.

Inductive Part : Type :=
| Controls
| LoadingPart (message : jsstring)
| ErrorPart (message : jsstring)
| GridAndPagination.

(** One render of the home page from the provider's state: the controls,
    then the three conditional blocks. *)
Definition Home (st : PodcastContext.State) : list Part :=
  let loading := PodcastContext.loading st in
  let error := PodcastContext.error st in
  [Controls]
  ++ (if loading then [LoadingPart (str "Loading podcasts...")] else [])
  ++ (if messageTruthy error
      then [ErrorPart (str "Error occurred while fetching podcasts: "
                       ++ messageText error)]
      else [])
  ++ (if negb loading && negb (messageTruthy error)
      then [GridAndPagination]
      else []).

End Home.

(* ================================================================= *)
(** * Properties of the built-ins *)

Section BuiltinFacts.

Lemma eqb_eq (a b : jsstring) : JS.eqb a b = true <-> a = b.
Proof.
  revert b; induction a as [|x a IH]; intros [|y b]; simpl;
    try (split; [discriminate | congruence]); try tauto.
  rewrite andb_true_iff, N.eqb_eq, IH.
  split; [intros [-> ->]; reflexivity | intros E; injection E; auto].
Qed.

Lemma eqb_refl (a : jsstring) : JS.eqb a a = true.
Proof. apply eqb_eq; reflexivity. Qed.

Lemma eqb_neq (a b : jsstring) : JS.eqb a b = false <-> a <> b.
Proof.
  destruct (JS.eqb a b) eqn:E.
  - apply eqb_eq in E. split; [discriminate | contradiction].
  - split; [intros _ Hab; apply eqb_eq in Hab; congruence | reflexivity].
Qed.

(** *** [trim] *)

Lemma trimStart_nil_iff (s : jsstring) : trimStart s = [] <-> blank s.
Proof.
  unfold blank; induction s as [|c s IH]; simpl.
  - split; auto.
  - destruct (isWhiteSpace c) eqn:E.
    + rewrite IH. split; [intros; constructor; auto | inversion 1; auto].
    + split; [discriminate | inversion 1; congruence].
Qed.

Lemma trimStart_head (s : jsstring) :
  match trimStart s with
  | [] => True
  | c :: _ => isWhiteSpace c = false
  end.
Proof.
  induction s as [|c s IH]; simpl; auto.
  destruct (isWhiteSpace c) eqn:E; auto.
Qed.

Lemma trim_nil_iff (s : jsstring) : trim s = [] <-> blank s.
Proof.
  rewrite <- trimStart_nil_iff. unfold trim, trimEnd.
  split.
  - intros E. apply (f_equal (@rev N)) in E. rewrite rev_involutive in E.
    simpl in E. apply trimStart_nil_iff in E.
    pose proof (trimStart_head s) as Hd.
    destruct (trimStart s) as [|c t]; auto.
    unfold blank in E. rewrite Forall_forall in E.
    rewrite (E c) in Hd; [discriminate|].
    apply in_rev. rewrite rev_involutive. left; reflexivity.
  - intros ->. reflexivity.
Qed.

Lemma truthy_trim (s : jsstring) : truthy (trim s) = false <-> blank s.
Proof.
  rewrite <- trim_nil_iff.
  destruct (trim s); simpl; split; congruence.
Qed.

(** *** [includes] *)

Lemma startsWith_spec (s q : jsstring) :
  startsWith s q = true <-> exists post, s = q ++ post.
Proof.
  revert s; induction q as [|y q IH]; intros s; simpl.
  - split; [intros _; exists s; reflexivity | destruct s; reflexivity].
  - destruct s as [|x s].
    + split; [discriminate | intros [post E]; discriminate].
    + simpl. rewrite andb_true_iff, N.eqb_eq, IH. split.
      * intros [-> [post ->]]. exists post; reflexivity.
      * intros [post E]. injection E as -> ->. split; [|exists post]; reflexivity.
Qed.

Lemma String_includes_spec (s q : jsstring) :
  String_includes s q = true <-> exists pre post, s = pre ++ q ++ post.
Proof.
  induction s as [|x s IH].
  - cbn [String_includes]. rewrite orb_false_r, startsWith_spec. split.
    + intros [post E]. exists [], post. exact E.
    + intros [pre [post E]]. destruct pre; [eauto | discriminate].
  - cbn [String_includes]. rewrite orb_true_iff, startsWith_spec, IH. split.
    + intros [[post E] | [pre [post E]]].
      * exists [], post. exact E.
      * exists (x :: pre), post. simpl. congruence.
    + intros [[|y pre] [post E]].
      * left. exists post. exact E.
      * right. injection E as _ E. exists pre, post. exact E.
Qed.

(** *** [Math.ceil] of a quotient *)

Lemma Math_ceil_div_floor (a b : Z) :
  Math_ceil_div a b = - ((- a) / b).
Proof.
  unfold Math_ceil_div, Qceiling. f_equal.
  rewrite Zdiv_Qdiv. apply Qfloor_comp.
  rewrite inject_Z_opp. unfold Qdiv. ring.
Qed.

Lemma Math_ceil_div_bounds (a b : Z) :
  0 < b ->
  (Math_ceil_div a b - 1) * b < a <= Math_ceil_div a b * b.
Proof.
  intros Hb. rewrite Math_ceil_div_floor.
  pose proof (Z.div_mod (- a) b ltac:(lia)) as E.
  pose proof (Z.mod_pos_bound (- a) b Hb) as M.
  nia.
Qed.

Lemma Math_ceil_div_unique (a b c : Z) :
  0 < b -> (c - 1) * b < a <= c * b -> Math_ceil_div a b = c.
Proof.
  intros Hb Hc. pose proof (Math_ceil_div_bounds a b Hb). nia.
Qed.

End BuiltinFacts.

(* ================================================================= *)
(** * Properties of [Array.prototype.sort] *)

Section SortFacts.
Context {A : Type} (cmp : A -> A -> Z).

(** [x] may stand before [y]. *)
Let before (x y : A) : Prop := cmp x y <= 0.

Lemma insert_perm (x : A) (l : list A) : Permutation (x :: l) (insert cmp x l).
Proof.
  induction l as [|y l IH]; simpl; auto.
  destruct (cmp x y <=? 0); auto.
  rewrite perm_swap. constructor. exact IH.
Qed.

Lemma sort_perm (l : list A) : Permutation l (sort cmp l).
Proof.
  induction l as [|x l IH]; simpl; auto.
  rewrite <- insert_perm. constructor. exact IH.
Qed.

Lemma sort_length (l : list A) : List.length (sort cmp l) = List.length l.
Proof. symmetry. apply Permutation_length, sort_perm. Qed.

Lemma sort_In (l : list A) (x : A) : In x (sort cmp l) <-> In x l.
Proof.
  split; apply Permutation_in; [symmetry|]; apply sort_perm.
Qed.

(** Stability.  Elements of a class [f] whose members never have to be
    exchanged keep their order. *)
Lemma insert_filter (f : A -> bool) (x : A) (l : list A) :
  (forall y, In y l -> f x = true -> f y = true -> cmp x y <= 0) ->
  filter f (insert cmp x l) = filter f (x :: l).
Proof.
  induction l as [|y l IH]; intros Hle; auto.
  cbn [insert]. destruct (cmp x y <=? 0) eqn:E; auto.
  apply Z.leb_gt in E.
  cbn [filter]. rewrite IH by (intros; apply Hle; simpl; auto).
  cbn [filter].
  destruct (f x) eqn:Fx, (f y) eqn:Fy; auto.
  specialize (Hle y (or_introl eq_refl) eq_refl Fy). lia.
Qed.

Lemma sort_filter (f : A -> bool) (l : list A) :
  (forall x y, f x = true -> f y = true -> cmp x y <= 0) ->
  filter f (sort cmp l) = filter f l.
Proof.
  intros Hle. induction l as [|x l IH]; auto.
  cbn [sort]. rewrite insert_filter by (intros; apply Hle; auto).
  cbn [filter]. rewrite IH. reflexivity.
Qed.

(** Sortedness, for a comparator that is total and transitive. *)
Hypothesis cmp_total : forall x y, 0 < cmp x y -> cmp y x <= 0.
Hypothesis cmp_trans :
  forall x y z, cmp x y <= 0 -> cmp y z <= 0 -> cmp x z <= 0.

Lemma insert_sorted (x : A) (l : list A) :
  StronglySorted before l -> StronglySorted before (insert cmp x l).
Proof.
  induction 1 as [|y l Hs IH Hy]; simpl.
  - repeat constructor.
  - destruct (cmp x y <=? 0) eqn:E.
    + apply Z.leb_le in E. constructor; [constructor; assumption|].
      constructor; [exact E|].
      eapply Forall_impl; [|exact Hy].
      intros z Hz. exact (cmp_trans _ _ _ E Hz).
    + apply Z.leb_gt in E. constructor; [exact IH|].
      rewrite Forall_forall. intros z Hz.
      apply (Permutation_in _ (Permutation_sym (insert_perm x l))) in Hz.
      destruct Hz as [<- | Hz].
      * apply cmp_total, E.
      * rewrite Forall_forall in Hy. apply Hy, Hz.
Qed.

Lemma sort_sorted (l : list A) : StronglySorted before (sort cmp l).
Proof.
  induction l as [|x l IH]; simpl; [constructor | apply insert_sorted, IH].
Qed.

End SortFacts.

Section SortedLists.
Context {A : Type}.

Lemma StronglySorted_app (R : A -> A -> Prop) (l1 l2 : list A) :
  StronglySorted R l1 -> StronglySorted R l2 ->
  (forall x y, In x l1 -> In y l2 -> R x y) ->
  StronglySorted R (l1 ++ l2).
Proof.
  induction 1 as [|a l1 Hs IH Ha]; intros H2 Hx; simpl; auto.
  constructor.
  - apply IH; auto. intros; apply Hx; simpl; auto.
  - apply Forall_app. split; auto.
    rewrite Forall_forall. intros y Hy. apply Hx; simpl; auto.
Qed.

Lemma StronglySorted_rev (R : A -> A -> Prop) (l : list A) :
  StronglySorted R l -> StronglySorted (fun x y => R y x) (rev l).
Proof.
  induction 1 as [|a l Hs IH Ha]; simpl; [constructor|].
  apply StronglySorted_app; auto.
  - repeat constructor.
  - intros x y Hx [<- | []]. rewrite Forall_forall in Ha.
    apply Ha, in_rev, Hx.
Qed.

(** Two sorted arrangements of the same elements coincide when no two
    different elements may stand in either order. *)
Lemma sorted_perm_unique (R : A -> A -> Prop) (l1 l2 : list A) :
  (forall x y, In x l1 -> In y l1 -> R x y -> R y x -> x = y) ->
  StronglySorted R l1 -> StronglySorted R l2 -> Permutation l1 l2 ->
  l1 = l2.
Proof.
  intros Hanti H1. revert l2.
  induction H1 as [|a l1 Hs IH Ha]; intros l2 H2 HP.
  - apply Permutation_nil in HP. auto.
  - destruct H2 as [|b l2 Hs2 Hb].
    + apply Permutation_sym, Permutation_nil in HP. discriminate.
    + assert (a = b) as <-.
      { assert (In a (b :: l2)) as Hin
          by (apply (Permutation_in _ HP); simpl; auto).
        assert (In b (a :: l1)) as Hin'
          by (apply (Permutation_in _ (Permutation_sym HP)); simpl; auto).
        destruct Hin as [E | Hin]; [auto|].
        destruct Hin' as [E | Hin']; [auto|].
        rewrite Forall_forall in Ha, Hb.
        apply Hanti; simpl; auto. }
      f_equal. apply IH; auto.
      * intros; apply Hanti; simpl; auto.
      * eapply Permutation_cons_inv; eauto.
Qed.

End SortedLists.

(* ================================================================= *)
(** * The provider: pagination, page size and the reset effect *)

Import PodcastContext.

Lemma totalPagesFor_ge_1 (filteredLength pageSize : Z) :
  1 <= totalPagesFor filteredLength pageSize.
Proof. unfold totalPagesFor. lia. Qed.

(** Every page size the provider stores is at least 6: the initial 10, or
    the value computed for a window width. *)
Lemma pageSizeFor_ge_6 (screenW : Z) : 6 <= pageSizeFor screenW.
Proof.
  unfold pageSizeFor. destruct (screenW <=? 1024) eqn:E; [lia|].
  apply Z.leb_gt in E.
  assert (3 <= screenW / 260) by (apply Z.div_le_lower_bound; lia).
  cbv zeta. lia.
Qed.

Lemma resetEffect_fields (old new : State) :
  let st := resetEffect old new in
  allPodcasts st = allPodcasts new /\ loading st = loading new /\
  error st = error new /\ search st = search new /\
  sortKey st = sortKey new /\ genre st = genre new /\
  pageSize st = pageSize new.
Proof.
  unfold resetEffect. destruct (sameFilters old new); simpl; tauto.
Qed.

Lemma step_pageSize_pos (st : State) (ev : Event) :
  6 <= pageSize st -> 6 <= pageSize (step st ev).
Proof.
  intros Hst. unfold step.
  destruct (resetEffect_fields st (dispatch ev st))
    as (_ & _ & _ & _ & _ & _ & ->).
  destruct ev; simpl; auto. apply pageSizeFor_ge_6.
Qed.

Lemma run_pageSize_pos (evs : list Event) (st : State) :
  6 <= pageSize st -> 6 <= pageSize (run st evs).
Proof.
  revert st; induction evs as [|ev evs IH]; intros st Hst; simpl; auto.
  apply IH, step_pageSize_pos, Hst.
Qed.

(** C3. For a non-negative filtered count and a positive page size,
    [totalPages] is [max(1, ceil(filteredCount / pageSize))]: with [c] the
    least integer for which [c] pages hold all the shows, it is the larger
    of 1 and [c].  An empty filtered set gives exactly one page, and the
    page count is never below 1. *)
Theorem C3_totalPages_max_one_ceil (filteredCount size : Z) :
  0 <= filteredCount -> 0 < size ->
  (exists c, (c - 1) * size < filteredCount <= c * size /\
             totalPagesFor filteredCount size = Z.max 1 c) /\
  (filteredCount = 0 -> totalPagesFor filteredCount size = 1) /\
  1 <= totalPagesFor filteredCount size /\
  (forall (H : Host) (st : State),
      Z.of_nat (List.length (filtered st)) = filteredCount ->
      pageSize st = size ->
      totalPages st = totalPagesFor filteredCount size).
Proof.
  intros Hn Hs. repeat split.
  - exists (Math_ceil_div filteredCount size). split; [|reflexivity].
    apply Math_ceil_div_bounds, Hs.
  - intros ->. unfold totalPagesFor.
    rewrite (Math_ceil_div_unique 0 size 0); lia.
  - apply totalPagesFor_ge_1.
  - intros H st <- <-. reflexivity.
Qed.

Lemma C3_totalPages_witness :
  0 <= 25 /\ 0 < 10 /\
  exists c, (c - 1) * 10 < 25 <= c * 10 /\ totalPagesFor 25 10 = Z.max 1 c.
Proof.
  split; [lia|]. split; [lia|].
  exact (proj1 (C3_totalPages_max_one_ceil 25 10 ltac:(lia) ltac:(lia))).
Defined.

Example totalPages_examples :
  totalPagesFor 25 10 = 3 /\ totalPagesFor 0 10 = 1 /\
  totalPagesFor 30 10 = 3 /\ totalPagesFor 31 10 = 4.
Proof. repeat split; reflexivity. Qed.

(** The end-to-end scenario: 25 shows, page size 10, requested page 3. *)
Example page_three_of_twenty_five :
  let st := run (mount 1000)
                [SetAllPodcasts Samples.twentyFive; SetPage 3] in
  pageSize st = 10 /\
  totalPages (H := SampleHost.host) st = 3 /\
  currentPage (H := SampleHost.host) st = 3 /\
  map id (paged (H := SampleHost.host) st) = [20; 21; 22; 23; 24].
Proof. vm_compute. repeat split; reflexivity. Qed.

(** C1, as the code has it. [setPage(n)] stores [n] whatever it is and
    changes nothing else; the derived [currentPage] is
    [min(n, totalPages)].  It never exceeds [totalPages], it lies in
    [[1, totalPages]] whenever [n >= 1], and a requested page below 1 is
    passed through unchanged. *)
Theorem C1_currentPage_is_min_of_request (H : Host) (st : State) (n : Z) :
  0 < pageSize st ->
  let st' := step st (SetPage n) in
  (page st' = n /\ allPodcasts st' = allPodcasts st /\
   search st' = search st /\ sortKey st' = sortKey st /\
   genre st' = genre st /\ pageSize st' = pageSize st) /\
  totalPages st' = totalPages st /\
  currentPage st' = Z.min n (totalPages st') /\
  currentPage st' <= totalPages st' /\
  (1 <= n -> 1 <= currentPage st' <= totalPages st') /\
  (n < 1 -> currentPage st' = n).
Proof.
  intros _ st'.
  assert (Hst : st' = setPage n st).
  { unfold st', step, resetEffect, sameFilters. simpl.
    rewrite !eqb_refl. reflexivity. }
  rewrite Hst.
  pose proof (totalPagesFor_ge_1
                (Z.of_nat (List.length (filtered (setPage n st))))
                (pageSize (setPage n st))) as T.
  fold (totalPages (setPage n st)) in T.
  unfold currentPage. simpl page.
  repeat split; try reflexivity; lia.
Qed.

Lemma C1_currentPage_witness :
  0 < pageSize (mount 1280) /\
  currentPage (H := SampleHost.host) (step (mount 1280) (SetPage 7)) = 1.
Proof.
  split; [vm_compute; reflexivity|].
  pose proof (C1_currentPage_is_min_of_request
                SampleHost.host (mount 1280) 7 eq_refl) as W.
  cbv zeta in W. destruct W as (_ & _ & -> & _). reflexivity.
Defined.

(** C1, as the claim states it, fails for a requested page of 0: on the
    sample catalog the derived [currentPage] is 0, outside
    [[1, totalPages]]. *)
Lemma C1_counterexample :
  let st := run (mount 1280)
                [SetAllPodcasts Samples.catalog; SetPage 0] in
  page st = 0 /\
  totalPages (H := SampleHost.host) st = 1 /\
  currentPage (H := SampleHost.host) st = 0 /\
  ~ (1 <= currentPage (H := SampleHost.host) st
       <= totalPages (H := SampleHost.host) st).
Proof. vm_compute. repeat split; try reflexivity. intros [C _]. apply C; reflexivity. Qed.

Lemma pageSizeFor_narrow (w : Z) : w <= 1024 -> pageSizeFor w = 10.
Proof.
  intros Hw. unfold pageSizeFor. apply Z.leb_le in Hw. rewrite Hw.
  reflexivity.
Qed.

Lemma pageSizeFor_wide (w : Z) : 1024 < w -> pageSizeFor w = w / 260 * 2.
Proof.
  intros Hw. unfold pageSizeFor. apply Z.leb_gt in Hw. rewrite Hw.
  reflexivity.
Qed.

(** C5. After a resize to width [w] the stored page size is 10 when
    [w <= 1024]; otherwise it is twice the number of whole 260-wide
    columns that fit, [floor(w / 260) * 2].  Widths 1024, 1025 and 1560
    give 10, 6 and 12. *)
Theorem C5_pageSize_from_width (st : State) (w : Z) :
  let st' := step st (Resize w) in
  pageSize st' = pageSizeFor w /\
  (w <= 1024 -> pageSize st' = 10) /\
  (1024 < w ->
   pageSize st' = w / 260 * 2 /\
   exists columns,
     260 * columns <= w < 260 * (columns + 1) /\
     pageSize st' = columns * 2) /\
  pageSizeFor 1024 = 10 /\ pageSizeFor 1025 = 6 /\ pageSizeFor 1560 = 12.
Proof.
  intros st'.
  assert (E : pageSize st' = pageSizeFor w).
  { unfold st', step.
    destruct (resetEffect_fields st (dispatch (Resize w) st))
      as (_ & _ & _ & _ & _ & _ & ->). reflexivity. }
  rewrite E. repeat split; try reflexivity.
  - apply pageSizeFor_narrow.
  - apply pageSizeFor_wide; assumption.
  - exists (w / 260). split; [|apply pageSizeFor_wide; assumption].
    pose proof (Z.div_mod w 260 ltac:(lia)).
    pose proof (Z.mod_pos_bound w 260 ltac:(lia)). lia.
Qed.

Lemma C5_pageSize_witness :
  pageSize (step (mount 800) (Resize 1560)) = 1560 / 260 * 2 /\
  pageSize (step (mount 1560) (Resize 800)) = 10.
Proof.
  pose proof (C5_pageSize_from_width (mount 800) 1560) as W1.
  pose proof (C5_pageSize_from_width (mount 1560) 800) as W2.
  cbv zeta in W1, W2.
  destruct W1 as (_ & _ & W1 & _). destruct W2 as (_ & W2 & _).
  split.
  - exact (proj1 (W1 eq_refl)).
  - apply W2. discriminate.
Defined.

(** C4. In every state, a change of the search text, of the genre filter
    or of the sort key leaves the requested page at 1.  A resize stores
    the page size computed from the width alone and leaves the requested
    page and the three query parameters as they were. *)
Theorem C4_filter_change_resets_page_resize_does_not (st : State) :
  (forall text, text <> search st ->
     let st' := step st (SetSearch text) in
     search st' = text /\ page st' = 1) /\
  (forall g, g <> genre st ->
     let st' := step st (SetGenre g) in
     genre st' = g /\ page st' = 1) /\
  (forall key, key <> sortKey st ->
     let st' := step st (SetSortKey key) in
     sortKey st' = key /\ page st' = 1) /\
  (forall w,
     let st' := step st (Resize w) in
     page st' = page st /\ pageSize st' = pageSizeFor w /\
     search st' = search st /\ genre st' = genre st /\
     sortKey st' = sortKey st).
Proof.
  split; [|split; [|split]].
  - intros text Hn st'. unfold st', step, resetEffect, sameFilters. simpl.
    assert (E : JS.eqb (search st) text = false)
      by (apply eqb_neq; congruence).
    rewrite E. simpl. split; reflexivity.
  - intros g Hn st'. unfold st', step, resetEffect, sameFilters. simpl.
    assert (E : JS.eqb (genre st) g = false)
      by (apply eqb_neq; congruence).
    rewrite E, !eqb_refl. simpl. split; reflexivity.
  - intros key Hn st'. unfold st', step, resetEffect, sameFilters. simpl.
    assert (E : JS.eqb (sortKey st) key = false)
      by (apply eqb_neq; congruence).
    rewrite E, !eqb_refl. simpl. split; reflexivity.
  - intros w st'. unfold st', step, resetEffect, sameFilters. simpl.
    rewrite !eqb_refl. simpl. repeat split; reflexivity.
Qed.

Lemma C4_reset_witness :
  let st := run (mount 1560) [SetAllPodcasts Samples.catalog; SetPage 2] in
  page st = 2 /\
  page (step st (SetSearch (str "war"))) = 1 /\
  page (step st (SetGenre (str "3"))) = 1 /\
  page (step st (SetSortKey (str "title-asc"))) = 1 /\
  page (step st (Resize 800)) = 2.
Proof.
  intros st.
  destruct (C4_filter_change_resets_page_resize_does_not st)
    as (Hs & Hg & Hk & Hr).
  split; [reflexivity|].
  split; [|split; [|split]].
  - apply (Hs (str "war")). discriminate.
  - apply (Hg (str "3")). discriminate.
  - apply (Hk (str "title-asc")). discriminate.
  - apply (Hr 800).
Defined.

(* ================================================================= *)
(** * The provider: [applyFilters] *)

Section ApplyFiltersFacts.
Context {H : Host}.

Lemma sortByKey_cases (key : jsstring) (data : list Podcast) :
  sortByKey key data = sort titleAsc data \/
  sortByKey key data = sort titleDesc data \/
  sortByKey key data = sort dateAsc data \/
  sortByKey key data = sort dateDesc data \/
  sortByKey key data = data.
Proof.
  unfold sortByKey.
  repeat match goal with
         | |- context [if ?b then _ else _] => destruct b
         end; tauto.
Qed.

Lemma sortByKey_perm (key : jsstring) (data : list Podcast) :
  Permutation data (sortByKey key data).
Proof.
  destruct (sortByKey_cases key data) as [E | [E | [E | [E | E]]]];
    rewrite E; auto using sort_perm.
Qed.

Lemma filterByGenre_all (data : list Podcast) :
  filterByGenre (str "all") data = data.
Proof. reflexivity. Qed.

Lemma filterBySearch_blank (s : jsstring) (data : list Podcast) :
  blank s -> filterBySearch s data = data.
Proof.
  intros Hb. unfold filterBySearch.
  apply truthy_trim in Hb. rewrite Hb. reflexivity.
Qed.

Lemma filterBySearch_not_blank (s : jsstring) (data : list Podcast) :
  ~ blank s ->
  filterBySearch s data =
  filter (fun p => String_includes (toLowerCase (title p)) (toLowerCase s))
         data.
Proof.
  intros Hb. unfold filterBySearch.
  destruct (truthy (trim s)) eqn:E; [reflexivity|].
  apply truthy_trim in E. contradiction.
Qed.

End ApplyFiltersFacts.

(** C6. When the search text is empty or white space only the search step
    returns the dataset unchanged.  Otherwise it keeps, in their order,
    exactly the shows whose lower-cased title contains the lower-cased
    search text as a substring; with no genre selected [applyFilters]
    returns these same shows, rearranged by the sort. *)
Theorem C6_search_keeps_case_insensitive_matches
    (H : Host) (s : jsstring) (D : list Podcast) :
  (blank s -> filterBySearch s D = D) /\
  (~ blank s ->
   (exists keep,
       filterBySearch s D = filter keep D /\
       forall p, keep p = true <->
                 exists pre post,
                   toLowerCase (title p) = pre ++ toLowerCase s ++ post) /\
   (forall p, In p (filterBySearch s D) <->
              In p D /\
              exists pre post,
                toLowerCase (title p) = pre ++ toLowerCase s ++ post)) /\
  (forall st, allPodcasts st = D -> search st = s -> genre st = str "all" ->
              Permutation (filterBySearch s D) (applyFilters st)).
Proof.
  split; [apply filterBySearch_blank|]. split.
  - intros Hb. rewrite (filterBySearch_not_blank s D Hb). split.
    + eexists. split; [reflexivity|].
      intros p. apply String_includes_spec.
    + intros p. rewrite filter_In, String_includes_spec. reflexivity.
  - intros st <- <- Hg. unfold applyFilters. rewrite Hg, filterByGenre_all.
    apply sortByKey_perm.
Qed.

Lemma C6_search_witness :
  ~ blank (str "WaS") /\ blank (str "  ") /\
  (forall p,
      In p (filterBySearch (H := SampleHost.host) (str "WaS") Samples.catalog)
      <-> In p Samples.catalog /\
          exists pre post,
            toLowerCase (Host := SampleHost.host) (title p)
            = pre ++ toLowerCase (Host := SampleHost.host) (str "WaS") ++ post)
  /\ filterBySearch (H := SampleHost.host) (str "  ") Samples.catalog
     = Samples.catalog.
Proof.
  assert (Hn : ~ blank (str "WaS")) by (inversion 1; discriminate).
  assert (Hb : blank (str "  ")) by (repeat constructor).
  split; [exact Hn|]. split; [exact Hb|]. split.
  - exact (proj2 (proj1 (proj2
             (C6_search_keeps_case_insensitive_matches
                SampleHost.host (str "WaS") Samples.catalog)) Hn)).
  - exact (proj1 (C6_search_keeps_case_insensitive_matches
                    SampleHost.host (str "  ") Samples.catalog) Hb).
Defined.

Example search_examples :
  map id (filterBySearch (H := SampleHost.host) (str "WaS") Samples.catalog)
    = [1] /\
  map id (filterBySearch (H := SampleHost.host) (str "SCAM") Samples.catalog)
    = [3] /\
  map id (filterBySearch (H := SampleHost.host) (str " wa") Samples.catalog)
    = [1; 5] /\
  map id (filterBySearch (H := SampleHost.host) (str "   ") Samples.catalog)
    = [1; 2; 3; 4; 5].
Proof. vm_compute. repeat split; reflexivity. Qed.

Lemma StronglySorted_impl {A : Type} (R S : A -> A -> Prop) (l : list A) :
  (forall x y, R x y -> S x y) -> StronglySorted R l -> StronglySorted S l.
Proof.
  intros HRS. induction 1 as [|a l Hs IH Ha]; constructor; auto.
  eapply Forall_impl; [|exact Ha]. auto.
Qed.

Lemma sort_dateDesc_sorted (l : list Podcast) :
  StronglySorted (fun a b => updated b <= updated a) (sort dateDesc l).
Proof.
  apply StronglySorted_impl with (R := fun a b => dateDesc a b <= 0).
  - unfold dateDesc. intros x y Hxy. lia.
  - apply sort_sorted; unfold dateDesc; intros; lia.
Qed.

(** The whole pipeline on the sample catalog: search, genre and sort. *)
Example applyFilters_example :
  let st := run (mount 1560)
                [SetAllPodcasts Samples.catalog; SetSearch (str "s");
                 SetGenre (str "3"); SetSortKey (str "date-asc")] in
  map id (applyFilters (H := SampleHost.host) st) = [4; 3] /\
  page st = 1.
Proof. vm_compute. split; reflexivity. Qed.

(** C7. Sorting by [date-desc] rearranges the shows so that the time
    stamps never increase along the result, and it is stable: for every
    time stamp, the shows bearing it appear in the order they had before
    the sort. *)
Theorem C7_date_desc_sorted_and_stable (H : Host) (l : list Podcast) :
  let sorted := sortByKey (str "date-desc") l in
  Permutation l sorted /\
  StronglySorted (fun a b => updated b <= updated a) sorted /\
  forall t,
    filter (fun p => updated p =? t) sorted
    = filter (fun p => updated p =? t) l.
Proof.
  change (sortByKey (str "date-desc") l) with (sort dateDesc l). cbv zeta.
  split; [apply sort_perm|]. split; [apply sort_dateDesc_sorted|].
  intros t. apply sort_filter.
  intros x y Hx Hy. apply Z.eqb_eq in Hx, Hy. unfold dateDesc. lia.
Qed.

Example date_desc_example :
  map id (sortByKey (H := SampleHost.host) (str "date-desc") Samples.catalog)
  = [3; 5; 1; 2; 4].
Proof. vm_compute. reflexivity. Qed.

(** While only the fetch and the window act on the provider, the query
    parameters keep their initial values. *)
Lemma systemEvents_keep_query (evs : list Event) (st : State) :
  Forall systemEvent evs ->
  let st' := run st evs in
  search st' = search st /\ genre st' = genre st /\
  sortKey st' = sortKey st /\ page st' = page st.
Proof.
  revert st. induction evs as [|ev evs IH]; intros st Hev; simpl.
  - tauto.
  - inversion Hev as [|? ? Hsys Hrest]; subst.
    specialize (IH (step st ev) Hrest). cbv zeta in IH.
    destruct IH as (-> & -> & -> & ->).
    unfold step, resetEffect, sameFilters.
    destruct ev; simpl in Hsys; try contradiction; simpl;
      rewrite !eqb_refl; simpl; tauto.
Qed.

Lemma slice_first_page {A : Type} (l : list A) (size : Z) :
  0 <= size -> slice l 0 size = firstn (Z.to_nat size) l.
Proof.
  intros Hs. unfold slice.
  assert (E0 : (0 <? 0) = false) by reflexivity.
  assert (E1 : (size <? 0) = false) by (apply Z.ltb_ge; lia).
  rewrite E0, E1. rewrite (Z.min_l 0) by lia. simpl skipn.
  rewrite Z.sub_0_r.
  destruct (Z.le_ge_cases size (Z.of_nat (List.length l))) as [Hle | Hge].
  - rewrite Z.min_l by lia. reflexivity.
  - rewrite Z.min_r by lia. rewrite Nat2Z.id.
    rewrite firstn_all. symmetry. apply firstn_all2. lia.
Qed.

(** C10. The initial sort key is ["date-desc"], not ["default"].  After
    mounting, and while only the fetch and the window act on the provider,
    the view derived from a fetched dataset [D] is [D] sorted by time
    stamp, newest first: [filtered] is that sorted list and the page shown
    is its first [pageSize] entries. *)
Theorem C10_initial_view_is_newest_first
    (H : Host) (w : Z) (evs : list Event) (D : list Podcast) :
  Forall systemEvent evs ->
  let st := step (run (mount w) evs) (SetAllPodcasts D) in
  sortKey initialState = str "date-desc" /\
  sortKey initialState <> str "default" /\
  sortKey st = str "date-desc" /\
  filtered st = sort dateDesc D /\
  Permutation D (filtered st) /\
  StronglySorted (fun a b => updated b <= updated a) (filtered st) /\
  value_page (value st) = 1 /\
  value_podcasts (value st) = firstn (Z.to_nat (pageSize st)) (sort dateDesc D).
Proof.
  intros Hev st.
  assert (Hrun : st = run (mount w) (evs ++ [SetAllPodcasts D])).
  { unfold st, run. rewrite fold_left_app. reflexivity. }
  assert (Hsys : Forall systemEvent (evs ++ [SetAllPodcasts D])).
  { apply Forall_app. split; [exact Hev|]. repeat constructor. }
  pose proof (systemEvents_keep_query _ (mount w) Hsys) as Q.
  cbv zeta in Q. rewrite <- Hrun in Q.
  destruct Q as (Qs & Qg & Qk & Qp).
  assert (HD : allPodcasts st = D).
  { unfold st, step.
    destruct (resetEffect_fields (run (mount w) evs)
                (dispatch (SetAllPodcasts D) (run (mount w) evs)))
      as (-> & _). reflexivity. }
  assert (Hsize : 6 <= pageSize st).
  { rewrite Hrun. apply run_pageSize_pos. apply pageSizeFor_ge_6. }
  assert (Hf : filtered st = sort dateDesc D).
  { unfold filtered, applyFilters. rewrite Qs, Qg, Qk, HD. reflexivity. }
  assert (Hpage : currentPage st = 1).
  { unfold currentPage. rewrite Qp.
    pose proof (totalPagesFor_ge_1
                  (Z.of_nat (List.length (filtered st))) (pageSize st)).
    fold (totalPages st) in *. simpl page. lia. }
  split; [reflexivity|]. split; [discriminate|]. split; [exact Qk|].
  split; [exact Hf|]. rewrite Hf.
  split; [apply sort_perm|]. split; [apply sort_dateDesc_sorted|].
  split; [exact Hpage|].
  simpl value_podcasts. unfold paged. rewrite Hpage, Hf.
  change ((1 - 1) * pageSize st) with 0. rewrite Z.mul_1_l.
  apply slice_first_page. lia.
Qed.

Lemma C10_initial_view_witness :
  let st := step (run (mount 1560) [SetLoading false])
                 (SetAllPodcasts Samples.catalog) in
  Forall systemEvent [SetLoading false] /\
  filtered (H := SampleHost.host) st = sort dateDesc Samples.catalog /\
  map id (filtered (H := SampleHost.host) st) = [3; 5; 1; 2; 4] /\
  filtered (H := SampleHost.host) st <> Samples.catalog.
Proof.
  intros st.
  assert (Hsys : Forall systemEvent [SetLoading false])
    by (repeat constructor).
  pose proof (C10_initial_view_is_newest_first
                SampleHost.host 1560 [SetLoading false] Samples.catalog Hsys)
    as W.
  cbv zeta in W. destruct W as (_ & _ & _ & W & _).
  split; [exact Hsys|]. split; [exact W|].
  fold st in W. rewrite W. split; [reflexivity | discriminate].
Defined.

(* ================================================================= *)
(** * The two title orders *)

Lemma NoDup_map_eq {A B : Type} (f : A -> B) (l : list A) (a b : A) :
  NoDup (map f l) -> In a l -> In b l -> f a = f b -> a = b.
Proof.
  induction l as [|x l IH]; simpl; [tauto|].
  intros Hnd Ha Hb E. inversion Hnd as [|? ? Hx Hl]; subst.
  destruct Ha as [-> | Ha], Hb as [-> | Hb]; auto.
  - exfalso. apply Hx. rewrite E. apply in_map, Hb.
  - exfalso. apply Hx. rewrite <- E. apply in_map, Ha.
Qed.

Section Collation.
Context {H : Host} {HC : ConsistentComparator H}.

Lemma localeCompare_total (a b : jsstring) :
  0 < localeCompare a b -> localeCompare b a <= 0.
Proof.
  pose proof (localeCompare_swap a b) as S.
  destruct (localeCompare a b), (localeCompare b a);
    simpl in S; try discriminate; lia.
Qed.

Lemma localeCompare_tie (a b : jsstring) :
  localeCompare a b <= 0 -> localeCompare b a <= 0 -> localeCompare a b = 0.
Proof.
  pose proof (localeCompare_swap a b) as S.
  destruct (localeCompare a b), (localeCompare b a);
    simpl in S; try discriminate; lia.
Qed.

Lemma sort_titleAsc_sorted (l : list Podcast) :
  StronglySorted (fun a b => localeCompare (title a) (title b) <= 0)
                 (sort titleAsc l).
Proof.
  apply (sort_sorted titleAsc); unfold titleAsc.
  - intros x y. apply localeCompare_total.
  - intros x y z. apply localeCompare_trans.
Qed.

Lemma sort_titleDesc_sorted (l : list Podcast) :
  StronglySorted (fun a b => localeCompare (title b) (title a) <= 0)
                 (sort titleDesc l).
Proof.
  apply (sort_sorted titleDesc); unfold titleDesc.
  - intros x y. apply localeCompare_total.
  - intros x y z Hxy Hyz. exact (localeCompare_trans _ _ _ Hyz Hxy).
Qed.

End Collation.

(** C8, as the code has it. Let the titles of the list be pairwise
    distinct and let [localeCompare] tell them apart (it returns 0 for no
    two different titles of the list).  Then sorting by [title-asc] and
    sorting by [title-desc] give exactly reversed orders. *)
Theorem C8_title_orders_reverse_when_no_titles_tie
    (H : Host) (HC : ConsistentComparator H) (l : list Podcast) :
  NoDup (map title l) ->
  (forall a b, In a l -> In b l ->
               localeCompare (title a) (title b) = 0 -> title a = title b) ->
  sortByKey (str "title-asc") l = rev (sortByKey (str "title-desc") l).
Proof.
  intros Hnd Hsep.
  change (sortByKey (str "title-asc") l) with (sort titleAsc l).
  change (sortByKey (str "title-desc") l) with (sort titleDesc l).
  apply sorted_perm_unique
    with (R := fun a b => localeCompare (title a) (title b) <= 0).
  - intros x y Hx Hy Hxy Hyx.
    apply sort_In in Hx, Hy.
    apply (NoDup_map_eq title l); auto.
    apply Hsep; auto. apply localeCompare_tie; assumption.
  - apply sort_titleAsc_sorted.
  - apply (StronglySorted_rev
             (fun a b => localeCompare (title b) (title a) <= 0)).
    apply sort_titleDesc_sorted.
  - rewrite <- sort_perm. rewrite <- Permutation_rev.
    apply sort_perm.
Qed.

(** The sample collation is a consistent comparator. *)
Lemma N_compare_trans (x y z : N) (c : comparison) :
  N.compare x y = c -> N.compare y z = c -> N.compare x z = c.
Proof.
  destruct c; intros Hxy Hyz.
  - rewrite N.compare_eq_iff in *. congruence.
  - rewrite N.compare_lt_iff in *. lia.
  - rewrite N.compare_gt_iff in *. lia.
Qed.

Lemma SampleHost_consistent : ConsistentComparator SampleHost.host.
Proof.
  split; simpl; unfold SampleHost.collate.
  - intros a b.
    rewrite (list_compare_antisym N.compare N.compare_eq_iff
               (map SampleHost.canonicalUnit a)
               (map SampleHost.canonicalUnit b)
               (fun x y => N.compare_antisym x y)).
    destruct (list_compare N.compare _ _); reflexivity.
  - intros a b c.
    destruct (list_compare N.compare (map SampleHost.canonicalUnit a)
                (map SampleHost.canonicalUnit b)) eqn:Eab;
      destruct (list_compare N.compare (map SampleHost.canonicalUnit b)
                  (map SampleHost.canonicalUnit c)) eqn:Ebc;
      try lia; intros _ _.
    + apply (list_compare_refl N.compare N.compare_eq_iff) in Eab.
      rewrite Eab, Ebc. lia.
    + apply (list_compare_refl N.compare N.compare_eq_iff) in Eab.
      rewrite Eab, Ebc. lia.
    + apply (list_compare_refl N.compare N.compare_eq_iff) in Ebc.
      rewrite <- Ebc, Eab. lia.
    + rewrite (list_compare_trans N.compare N.compare_eq_iff _ _ _
                 N_compare_trans (fun x y => N.compare_antisym x y)
                 Eab Ebc).
      lia.
Defined.

Lemma C8_title_orders_witness :
  let l := firstn 3 Samples.catalog in
  NoDup (map title l) /\
  (forall a b, In a l -> In b l ->
               localeCompare (Host := SampleHost.host) (title a) (title b) = 0
               -> title a = title b) /\
  sortByKey (H := SampleHost.host) (str "title-asc") l
  = rev (sortByKey (H := SampleHost.host) (str "title-desc") l).
Proof.
  intros l.
  assert (Hnd : NoDup (map title l)).
  { repeat constructor; simpl; intuition discriminate. }
  assert (Hsep : forall a b, In a l -> In b l ->
            localeCompare (Host := SampleHost.host) (title a) (title b) = 0
            -> title a = title b).
  { intros a b Ha Hb.
    simpl in Ha, Hb.
    destruct Ha as [<- | [<- | [<- | []]]];
      destruct Hb as [<- | [<- | [<- | []]]];
      intros E; try reflexivity; vm_compute in E; discriminate. }
  split; [exact Hnd|]. split; [exact Hsep|].
  exact (C8_title_orders_reverse_when_no_titles_tie
           SampleHost.host SampleHost_consistent l Hnd Hsep).
Defined.

(** Whatever the host, two shows whose titles compare as equal are left
    in place by both title sorts. *)
Lemma tied_titles_keep_their_order (H : Host) (a b : Podcast) :
  localeCompare (title a) (title b) = 0 ->
  localeCompare (title b) (title a) = 0 ->
  sortByKey (str "title-asc") [a; b] = [a; b] /\
  sortByKey (str "title-desc") [a; b] = [a; b].
Proof.
  intros Hab Hba.
  change (sortByKey (str "title-asc") [a; b]) with (sort titleAsc [a; b]).
  change (sortByKey (str "title-desc") [a; b]) with (sort titleDesc [a; b]).
  unfold titleAsc, titleDesc. simpl. rewrite Hab, Hba. split; reflexivity.
Qed.

(** C8, as the claim states it, fails for two different titles that the
    collation treats as equal.  U+212B and U+00C5 are canonically
    equivalent, [localeCompare] returns 0 for them, and the stable sort
    leaves the two shows in place under both keys. *)
Lemma C8_counterexample :
  let l := Samples.angstroms in
  NoDup (map title l) /\
  map id (sortByKey (H := SampleHost.host) (str "title-asc") l) = [1; 2] /\
  map id (sortByKey (H := SampleHost.host) (str "title-desc") l) = [1; 2] /\
  sortByKey (H := SampleHost.host) (str "title-asc") l
  <> rev (sortByKey (H := SampleHost.host) (str "title-desc") l).
Proof.
  cbv zeta. split.
  - repeat constructor; simpl; intuition discriminate.
  - unfold Samples.angstroms.
    destruct (tied_titles_keep_their_order SampleHost.host
                {| id := 1; title := [8491%N]; updated := 0; genres := [] |}
                {| id := 2; title := [197%N]; updated := 0; genres := [] |}
                eq_refl eq_refl) as [-> ->].
    repeat split; try reflexivity. discriminate.
Qed.

(* ================================================================= *)
(** * Genre tags *)

Lemma find_none_iff {A : Type} (f : A -> bool) (l : list A) :
  find f l = None <-> forall x, In x l -> f x = false.
Proof.
  induction l as [|a l IH]; simpl.
  - split; [intros _ x [] | reflexivity].
  - destruct (f a) eqn:E.
    + split; [discriminate|]. intros Hall.
      rewrite (Hall a) in E by auto. discriminate.
    + rewrite IH. split.
      * intros Hall x [<- | Hx]; auto.
      * intros Hall x Hx. apply Hall. auto.
Qed.

(** C9. For a genre id without an entry in the genre table the tag text
    is [Unknown (<id>)], with the id in decimal.  Rendering an array of ids
    always succeeds, with one tag per id, and every tag of such an id
    carries that text. *)
Theorem C9_unknown_genre_renders_as_unknown
    (genreMap : list GenreTags.Genre) (ids : list Z) (genreId : Z) :
  (forall g, In g genreMap -> GenreTags.id g <> genreId) ->
  GenreTags.tagText genreMap genreId
  = str "Unknown (" ++ Number_toString genreId ++ str ")" /\
  exists tags,
    GenreTags.GenreTags genreMap (Some ids) = Some tags /\
    map fst tags = ids /\
    (In genreId ids ->
     In (genreId, str "Unknown (" ++ Number_toString genreId ++ str ")")
        tags) /\
    (forall text, In (genreId, text) tags ->
       text = str "Unknown (" ++ Number_toString genreId ++ str ")").
Proof.
  intros Hno.
  assert (Ht : GenreTags.tagText genreMap genreId
               = str "Unknown (" ++ Number_toString genreId ++ str ")").
  { unfold GenreTags.tagText.
    replace (find _ genreMap) with (@None GenreTags.Genre); [reflexivity|].
    symmetry. apply find_none_iff. intros g Hg.
    apply Z.eqb_neq. apply Hno, Hg. }
  split; [exact Ht|].
  eexists. split; [reflexivity|]. split; [|split].
  - rewrite map_map. simpl. apply map_id.
  - intros Hin. rewrite <- Ht.
    apply (in_map (fun i => (i, GenreTags.tagText genreMap i))), Hin.
  - intros text Hin. apply in_map_iff in Hin as (i & E & _).
    injection E as -> <-. exact Ht.
Qed.

Lemma C9_unknown_genre_witness :
  (forall g, In g Samples.genreTable -> GenreTags.id g <> 99) /\
  GenreTags.tagText Samples.genreTable 99 = str "Unknown (99)" /\
  GenreTags.GenreTags Samples.genreTable (Some [3; 99])
  = Some [(3, str "History"); (99, str "Unknown (99)")].
Proof.
  assert (Hno : forall g, In g Samples.genreTable -> GenreTags.id g <> 99).
  { intros g Hg. simpl in Hg.
    destruct Hg as [<- | [<- | [<- | []]]]; discriminate. }
  split; [exact Hno|]. split.
  - exact (proj1 (C9_unknown_genre_renders_as_unknown
                    Samples.genreTable [3; 99] 99 Hno)).
  - reflexivity.
Defined.

Example Number_toString_examples :
  Number_toString 99 = str "99" /\ Number_toString 0 = str "0" /\
  Number_toString (-3) = str "-3".
Proof. repeat split; reflexivity. Qed.

(** Without a [genres] array (a show opened directly, with no navigation
    state) the component does not render. *)
Example GenreTags_without_array :
  GenreTags.GenreTags Samples.genreTable None = None.
Proof. reflexivity. Qed.

(* ================================================================= *)
(** * The season selection of the show detail *)

Lemma index_Some_iff {A : Type} (l : list A) (i : Z) :
  (exists x, index l i = Some x) <-> 0 <= i < Z.of_nat (List.length l).
Proof.
  unfold index. destruct (i <? 0) eqn:E.
  - apply Z.ltb_lt in E. split; [intros [x Hx]; discriminate | lia].
  - apply Z.ltb_ge in E. split.
    + intros [x Hx].
      assert (Hlt : (Z.to_nat i < List.length l)%nat)
        by (apply nth_error_Some; congruence).
      lia.
    + intros Hi.
      destruct (nth_error l (Z.to_nat i)) as [x|] eqn:N; [eauto|].
      apply nth_error_None in N. lia.
Qed.

Lemma optionValues_range (p : PodcastDetail.Podcast) (v : Z) :
  existsb (Z.eqb v) (PodcastDetail.optionValues p) = true ->
  0 <= v < Z.of_nat (List.length (PodcastDetail.seasons p)).
Proof.
  intros Hv. apply existsb_exists in Hv as (x & Hx & E).
  apply Z.eqb_eq in E. subst x.
  unfold PodcastDetail.optionValues in Hx.
  apply in_map_iff in Hx as (n & <- & Hn). apply in_seq in Hn. lia.
Qed.

Lemma render_dropdown (inst : PodcastDetail.Instance)
      (view : PodcastDetail.View) :
  PodcastDetail.render inst = Some view ->
  PodcastDetail.dropdown view
  = PodcastDetail.optionValues (PodcastDetail.podcast inst).
Proof.
  unfold PodcastDetail.render.
  destruct (PodcastDetail.season inst); [|discriminate].
  intros E. injection E as <-. reflexivity.
Qed.

Lemma selections_stay_in_range
      (p : PodcastDetail.Podcast) (evs : list PodcastDetail.Event)
      (inst inst' : PodcastDetail.Instance) :
  Forall PodcastDetail.isSelect evs ->
  PodcastDetail.podcast inst = p ->
  0 <= PodcastDetail.selectedSeasonIndex inst
    < Z.of_nat (List.length (PodcastDetail.seasons p)) ->
  PodcastDetail.run inst evs = Some inst' ->
  PodcastDetail.podcast inst' = p /\
  0 <= PodcastDetail.selectedSeasonIndex inst'
    < Z.of_nat (List.length (PodcastDetail.seasons p)).
Proof.
  intros Hev. revert inst.
  induction Hev as [|ev evs Hsel _ IH]; intros inst Hp Hi; simpl.
  - intros E. injection E as <-. auto.
  - destruct ev as [v | q]; [|contradiction]. simpl.
    destruct (PodcastDetail.render inst) as [view|] eqn:R; [|discriminate].
    destruct (existsb (Z.eqb v) (PodcastDetail.dropdown view)) eqn:Ex;
      [|discriminate].
    apply IH; simpl; auto.
    rewrite (render_dropdown inst view R), Hp in Ex.
    apply optionValues_range, Ex.
Qed.

(** C2, as the code has it.  The selected season index starts at 0 and is
    written only when the user picks an entry of the dropdown, whose
    values are the positions of the seasons of the current show; a new
    [podcast] prop leaves it as it is.  The season read is in range
    exactly when the index is below the number of seasons.  So for a show
    with at least one season, after any sequence of selections the index
    is in range and the view renders. *)
Theorem C2_selected_season_in_range_after_selections
    (p : PodcastDetail.Podcast) (evs : list PodcastDetail.Event)
    (inst : PodcastDetail.Instance) :
  PodcastDetail.seasons p <> [] ->
  Forall PodcastDetail.isSelect evs ->
  PodcastDetail.run (PodcastDetail.mount p) evs = Some inst ->
  PodcastDetail.selectedSeasonIndex (PodcastDetail.mount p) = 0 /\
  PodcastDetail.podcast inst = p /\
  0 <= PodcastDetail.selectedSeasonIndex inst
    < Z.of_nat (List.length (PodcastDetail.seasons p)) /\
  (exists s, PodcastDetail.season inst = Some s) /\
  (exists view, PodcastDetail.render inst = Some view) /\
  (forall i : PodcastDetail.Instance,
      (exists s, PodcastDetail.season i = Some s) <->
      0 <= PodcastDetail.selectedSeasonIndex i
        < Z.of_nat (List.length
                      (PodcastDetail.seasons (PodcastDetail.podcast i)))) /\
  (forall (i : PodcastDetail.Instance) (q : PodcastDetail.Podcast),
      PodcastDetail.step i (PodcastDetail.Rerender q)
      = Some {| PodcastDetail.podcast := q;
                PodcastDetail.selectedSeasonIndex :=
                  PodcastDetail.selectedSeasonIndex i |}).
Proof.
  intros Hne Hev Hrun.
  assert (H0 : 0 <= PodcastDetail.selectedSeasonIndex (PodcastDetail.mount p)
               < Z.of_nat (List.length (PodcastDetail.seasons p))).
  { simpl. destruct (PodcastDetail.seasons p); [contradiction|].
    simpl List.length. lia. }
  destruct (selections_stay_in_range
              p evs (PodcastDetail.mount p) inst Hev eq_refl H0 Hrun)
    as (Hp & Hi).
  assert (Hs : exists s, PodcastDetail.season inst = Some s).
  { apply index_Some_iff. rewrite Hp. exact Hi. }
  split; [reflexivity|]. split; [exact Hp|]. split; [exact Hi|].
  split; [exact Hs|]. split; [|split].
  - destruct Hs as [s Hs]. unfold PodcastDetail.render. rewrite Hs. eauto.
  - intros i. apply index_Some_iff.
  - reflexivity.
Qed.

Lemma C2_selected_season_witness :
  Samples.threeSeasons.(PodcastDetail.seasons) <> [] /\
  Forall PodcastDetail.isSelect
         [PodcastDetail.Select 2; PodcastDetail.Select 1] /\
  PodcastDetail.run (PodcastDetail.mount Samples.threeSeasons)
                    [PodcastDetail.Select 2; PodcastDetail.Select 1]
  = Some {| PodcastDetail.podcast := Samples.threeSeasons;
            PodcastDetail.selectedSeasonIndex := 1 |} /\
  exists s,
    PodcastDetail.season
      {| PodcastDetail.podcast := Samples.threeSeasons;
         PodcastDetail.selectedSeasonIndex := 1 |} = Some s.
Proof.
  assert (Hne : Samples.threeSeasons.(PodcastDetail.seasons) <> [])
    by discriminate.
  assert (Hev : Forall PodcastDetail.isSelect
                  [PodcastDetail.Select 2; PodcastDetail.Select 1])
    by (repeat constructor).
  split; [exact Hne|]. split; [exact Hev|]. split; [reflexivity|].
  exact (proj1 (proj2 (proj2 (proj2
    (C2_selected_season_in_range_after_selections
       Samples.threeSeasons
       [PodcastDetail.Select 2; PodcastDetail.Select 1]
       _ Hne Hev eq_refl))))).
Defined.

(** C2, as the claim states it, fails: the index is not clamped again.
    After season 3 of a three-season show is selected and the component is
    rendered with a one-season show, the stored index is still 2, the
    season read is out of range and the render throws.  A show without
    seasons does not render either. *)
Lemma C2_counterexample :
  let stale := {| PodcastDetail.podcast := Samples.oneSeason;
                  PodcastDetail.selectedSeasonIndex := 2 |} in
  PodcastDetail.run (PodcastDetail.mount Samples.threeSeasons)
    [PodcastDetail.Select 2; PodcastDetail.Rerender Samples.oneSeason]
  = Some stale /\
  Z.of_nat (List.length (PodcastDetail.seasons (PodcastDetail.podcast stale)))
  <= PodcastDetail.selectedSeasonIndex stale /\
  PodcastDetail.season stale = None /\
  PodcastDetail.render stale = None /\
  PodcastDetail.render (PodcastDetail.mount Samples.noSeasons) = None.
Proof.
  cbv zeta. split; [reflexivity|]. split; [vm_compute; discriminate|].
  repeat split; reflexivity.
Qed.

(* ================================================================= *)
(** * More on [applyFilters] *)

Lemma filter_filter {A : Type} (f g : A -> bool) (l : list A) :
  filter g (filter f l) = filter (fun x => f x && g x) l.
Proof.
  induction l as [|a l IH]; simpl; auto.
  destruct (f a); simpl; [destruct (g a)|]; rewrite IH; reflexivity.
Qed.

Lemma filter_true {A : Type} (l : list A) : filter (fun _ => true) l = l.
Proof. induction l as [|a l IH]; simpl; congruence. Qed.

Lemma filter_false {A : Type} (l : list A) : filter (fun _ => false) l = [].
Proof. induction l as [|a l IH]; simpl; auto. Qed.

Lemma filter_length_le {A : Type} (f : A -> bool) (l : list A) :
  (List.length (filter f l) <= List.length l)%nat.
Proof.
  induction l as [|a l IH]; simpl; auto.
  destruct (f a); simpl; lia.
Qed.

Section GenreFilter.
Context {H : Host}.

Lemma filterByGenre_other (g : jsstring) (D : list Podcast) :
  g <> str "all" ->
  filterByGenre g D = filter (fun p => genresInclude p g) D.
Proof.
  intros Hg. unfold filterByGenre.
  apply eqb_neq in Hg. rewrite Hg. reflexivity.
Qed.

Lemma genresInclude_spec (p : Podcast) (g : jsstring) :
  genresInclude p g = true <->
  exists n, Number g = Some n /\ In n (genres p).
Proof.
  unfold genresInclude. destruct (Number g) as [n|].
  - rewrite existsb_exists. split.
    + intros (x & Hx & E). apply Z.eqb_eq in E. subst x. eauto.
    + intros (m & E & Hm). injection E as <-.
      exists n. split; [exact Hm | apply Z.eqb_refl].
  - split; [discriminate | intros (n & E & _); discriminate].
Qed.

End GenreFilter.

(** X1. The genre step.  With ["all"] selected the list is returned
    unchanged.  With any other value the step keeps, in their order,
    exactly the shows whose genre array contains the number the value
    converts to; a value that converts to no integer removes every
    show. *)
Theorem X1_genre_filter_keeps_shows_of_genre
    (H : Host) (g : jsstring) (D : list Podcast) :
  (g = str "all" -> filterByGenre g D = D) /\
  (g <> str "all" ->
   (forall p, In p (filterByGenre g D) <->
              In p D /\ exists n, Number g = Some n /\ In n (genres p)) /\
   (forall n, Number g = Some n ->
              filterByGenre g D
              = filter (fun p => existsb (Z.eqb n) (genres p)) D) /\
   (Number g = None -> filterByGenre g D = [])).
Proof.
  split.
  - intros ->. reflexivity.
  - intros Hg. rewrite (filterByGenre_other g D Hg). split; [|split].
    + intros p. rewrite filter_In, genresInclude_spec. reflexivity.
    + intros n Hn. unfold genresInclude. rewrite Hn. reflexivity.
    + intros Hn. unfold genresInclude. rewrite Hn. apply filter_false.
Qed.

Lemma X1_genre_filter_witness :
  str "3" <> str "all" /\
  (forall p,
      In p (filterByGenre (H := SampleHost.host) (str "3") Samples.catalog)
      <-> In p Samples.catalog /\
          exists n, Number (Host := SampleHost.host) (str "3") = Some n /\
                    In n (genres p)) /\
  map id (filterByGenre (H := SampleHost.host) (str "3") Samples.catalog)
  = [3; 4].
Proof.
  assert (Hg : str "3" <> str "all") by discriminate.
  split; [exact Hg|]. split; [|reflexivity].
  exact (proj1 (proj2 (X1_genre_filter_keeps_shows_of_genre
                         SampleHost.host (str "3") Samples.catalog) Hg)).
Defined.

(** X2. The search step and the genre step commute: filtering by genre
    first and by search text second gives the same list as the order
    [applyFilters] uses. *)
Theorem X2_search_and_genre_steps_commute
    (H : Host) (s g : jsstring) (D : list Podcast) :
  filterByGenre g (filterBySearch s D) = filterBySearch s (filterByGenre g D).
Proof.
  unfold filterByGenre, filterBySearch.
  destruct (negb (JS.eqb g (str "all"))), (truthy (trim s)); auto.
  rewrite !filter_filter. apply filter_ext.
  intros p. apply andb_comm.
Qed.

(** X3. What [applyFilters] returns: a rearrangement of exactly the shows
    of the dataset that pass both tests (the search text is blank or
    occurs in the lower-cased title; the genre is ["all"] or its number is
    among the show's genres).  Hence the filtered count never exceeds the
    size of the dataset.  With the key ["default"], or any key outside the
    four sorting ones, these shows stay in dataset order. *)
Theorem X3_applyFilters_selects_matching_shows (H : Host) (st : State) :
  exists keep : Podcast -> bool,
    (forall p, keep p = true <->
       (blank (search st) \/
        exists pre post,
          toLowerCase (title p) = pre ++ toLowerCase (search st) ++ post) /\
       (genre st = str "all" \/
        exists n, Number (genre st) = Some n /\ In n (genres p))) /\
    Permutation (filter keep (allPodcasts st)) (applyFilters st) /\
    (forall p, In p (applyFilters st) <->
               In p (allPodcasts st) /\ keep p = true) /\
    (List.length (applyFilters st) <= List.length (allPodcasts st))%nat /\
    (sortKey st <> str "title-asc" -> sortKey st <> str "title-desc" ->
     sortKey st <> str "date-asc" -> sortKey st <> str "date-desc" ->
     applyFilters st = filter keep (allPodcasts st)).
Proof.
  set (bySearch := fun p : Podcast =>
         negb (truthy (trim (search st)))
         || String_includes (toLowerCase (title p)) (toLowerCase (search st))).
  set (byGenre := fun p : Podcast =>
         JS.eqb (genre st) (str "all") || genresInclude p (genre st)).
  exists (fun p => bySearch p && byGenre p).
  assert (Hstep : filterByGenre (genre st)
                    (filterBySearch (search st) (allPodcasts st))
                  = filter (fun p => bySearch p && byGenre p)
                           (allPodcasts st)).
  { rewrite <- filter_filter. unfold filterByGenre, filterBySearch.
    unfold bySearch, byGenre.
    destruct (truthy (trim (search st))),
             (JS.eqb (genre st) (str "all")); simpl;
      rewrite ?filter_true; reflexivity. }
  assert (Hperm : Permutation (filter (fun p => bySearch p && byGenre p)
                                      (allPodcasts st))
                              (applyFilters st)).
  { unfold applyFilters. rewrite Hstep. apply sortByKey_perm. }
  split; [|split; [exact Hperm|split; [|split]]].
  - intros p. unfold bySearch, byGenre.
    rewrite andb_true_iff, !orb_true_iff, negb_true_iff, truthy_trim,
      String_includes_spec, eqb_eq, genresInclude_spec.
    reflexivity.
  - intros p. split.
    + intros Hin. apply (Permutation_in _ (Permutation_sym Hperm)) in Hin.
      apply filter_In in Hin. exact Hin.
    + intros Hin. apply (Permutation_in _ Hperm).
      apply filter_In. exact Hin.
  - rewrite <- (Permutation_length Hperm). apply filter_length_le.
  - intros N1 N2 N3 N4. unfold applyFilters, sortByKey.
    apply eqb_neq in N1, N2, N3, N4. rewrite N1, N2, N3, N4.
    exact Hstep.
Qed.

Lemma X3_applyFilters_witness :
  let st := run (mount 1560)
                [SetAllPodcasts Samples.catalog; SetSearch (str "s");
                 SetGenre (str "3"); SetSortKey (str "default")] in
  exists keep,
    applyFilters (H := SampleHost.host) st = filter keep (allPodcasts st) /\
    map id (applyFilters (H := SampleHost.host) st) = [3; 4].
Proof.
  intros st.
  destruct (X3_applyFilters_selects_matching_shows SampleHost.host st)
    as (keep & _ & _ & _ & _ & Hdefault).
  exists keep. split; [|reflexivity].
  apply Hdefault; discriminate.
Defined.

(* ================================================================= *)
(** * More on the sort keys *)

Lemma sort_of_sorted {A : Type} (cmp : A -> A -> Z) (l : list A) :
  StronglySorted (fun x y => cmp x y <= 0) l -> sort cmp l = l.
Proof.
  induction 1 as [|a l Hs IH Ha]; simpl; auto.
  rewrite IH. destruct Ha as [|y l' Hy _]; simpl; auto.
  apply Z.leb_le in Hy. rewrite Hy. reflexivity.
Qed.

Lemma filter_all {A : Type} (f : A -> bool) (l : list A) :
  (forall x, In x l -> f x = true) -> filter f l = l.
Proof.
  intros Hall. rewrite <- (filter_true l) at 2.
  apply filter_ext_in. exact Hall.
Qed.

(** X4. Sorting by [date-asc] rearranges the shows so that the time
    stamps never decrease along the result, and shows with the same time
    stamp keep the order they had before the sort. *)
Theorem X4_date_asc_sorted_and_stable (H : Host) (l : list Podcast) :
  let sorted := sortByKey (str "date-asc") l in
  Permutation l sorted /\
  StronglySorted (fun a b => updated a <= updated b) sorted /\
  forall t,
    filter (fun p => updated p =? t) sorted
    = filter (fun p => updated p =? t) l.
Proof.
  change (sortByKey (str "date-asc") l) with (sort dateAsc l). cbv zeta.
  split; [apply sort_perm|]. split.
  - apply StronglySorted_impl with (R := fun a b => dateAsc a b <= 0).
    + unfold dateAsc. intros x y Hxy. lia.
    + apply sort_sorted; unfold dateAsc; intros; lia.
  - intros t. apply sort_filter.
    intros x y Hx Hy. apply Z.eqb_eq in Hx, Hy. unfold dateAsc. lia.
Qed.

(** X5. For a consistent [localeCompare], sorting by [title-asc] puts the
    titles in non-descending collation order and sorting by [title-desc]
    in non-ascending order.  Both are stable: the shows whose titles
    compare as equal to a given title keep their order. *)
Theorem X5_title_sorts_sorted_and_stable
    (H : Host) (HC : ConsistentComparator H) (l : list Podcast) :
  let asc := sortByKey (str "title-asc") l in
  let desc := sortByKey (str "title-desc") l in
  Permutation l asc /\ Permutation l desc /\
  StronglySorted (fun a b => localeCompare (title a) (title b) <= 0) asc /\
  StronglySorted (fun a b => localeCompare (title b) (title a) <= 0) desc /\
  forall t,
    filter (fun p => localeCompare (title p) t =? 0) asc
    = filter (fun p => localeCompare (title p) t =? 0) l /\
    filter (fun p => localeCompare (title p) t =? 0) desc
    = filter (fun p => localeCompare (title p) t =? 0) l.
Proof.
  change (sortByKey (str "title-asc") l) with (sort titleAsc l).
  change (sortByKey (str "title-desc") l) with (sort titleDesc l).
  cbv zeta.
  split; [apply sort_perm|]. split; [apply sort_perm|].
  split; [apply sort_titleAsc_sorted|].
  split; [apply sort_titleDesc_sorted|].
  assert (Htie : forall x y t,
             localeCompare (title x) t = 0 -> localeCompare (title y) t = 0 ->
             localeCompare (title x) (title y) <= 0).
  { intros x y t Hx Hy.
    apply (localeCompare_trans (title x) t (title y)); [lia|].
    pose proof (localeCompare_swap (title y) t) as S.
    rewrite Hy in S. simpl in S.
    destruct (localeCompare t (title y)); simpl in S; try discriminate; lia. }
  intros t. split; apply sort_filter; intros x y Hx Hy;
    apply Z.eqb_eq in Hx, Hy; unfold titleAsc, titleDesc; eauto.
Qed.

Lemma X5_title_sorts_witness :
  ConsistentComparator SampleHost.host /\
  StronglySorted
    (fun a b => localeCompare (Host := SampleHost.host) (title a) (title b)
                <= 0)
    (sortByKey (H := SampleHost.host) (str "title-asc") Samples.catalog).
Proof.
  split; [exact SampleHost_consistent|].
  exact (proj1 (proj2 (proj2
           (X5_title_sorts_sorted_and_stable
              SampleHost.host SampleHost_consistent Samples.catalog)))).
Defined.

Lemma applyFilters_In_pass {H : Host} (st : State) (p : Podcast) :
  In p (applyFilters st) ->
  (truthy (trim (search st)) = true ->
   String_includes (toLowerCase (title p)) (toLowerCase (search st)) = true)
  /\
  (JS.eqb (genre st) (str "all") = false ->
   genresInclude p (genre st) = true).
Proof.
  intros Hin. unfold applyFilters in Hin.
  apply (Permutation_in _ (Permutation_sym (sortByKey_perm _ _))) in Hin.
  unfold filterByGenre, filterBySearch in Hin. split; intros E.
  - rewrite E in Hin.
    destruct (negb (JS.eqb (genre st) (str "all"))).
    + apply filter_In in Hin as [Hin _].
      apply filter_In in Hin. tauto.
    + apply filter_In in Hin. tauto.
  - rewrite E in Hin. simpl in Hin. apply filter_In in Hin. tauto.
Qed.

(** X6. Deriving again from the derived list changes nothing: for a
    consistent [localeCompare], when the dataset is replaced by the
    filtered list and the query is left as it is, [applyFilters] returns
    that same list, in the same order. *)
Theorem X6_applyFilters_idempotent
    (H : Host) (HC : ConsistentComparator H) (st : State) :
  applyFilters (setAllPodcasts (applyFilters st) st) = applyFilters st.
Proof.
  set (R := applyFilters st) in *.
  assert (Hs : filterBySearch (search st) R = R).
  { unfold filterBySearch. destruct (truthy (trim (search st))) eqn:E; auto.
    apply filter_all. intros p Hp.
    apply (proj1 (applyFilters_In_pass st p Hp) E). }
  assert (Hg : filterByGenre (genre st) R = R).
  { unfold filterByGenre.
    destruct (JS.eqb (genre st) (str "all")) eqn:E; auto. simpl.
    apply filter_all. intros p Hp.
    apply (proj2 (applyFilters_In_pass st p Hp) E). }
  unfold applyFilters at 1. simpl. fold R. rewrite Hs, Hg.
  unfold R, applyFilters.
  set (D := filterByGenre (genre st)
              (filterBySearch (search st) (allPodcasts st))).
  unfold sortByKey.
  destruct (JS.eqb (sortKey st) (str "title-asc"));
    [apply sort_of_sorted, sort_titleAsc_sorted|].
  destruct (JS.eqb (sortKey st) (str "title-desc"));
    [apply sort_of_sorted, sort_titleDesc_sorted|].
  destruct (JS.eqb (sortKey st) (str "date-asc")).
  { apply sort_of_sorted, sort_sorted; unfold dateAsc; intros; lia. }
  destruct (JS.eqb (sortKey st) (str "date-desc")).
  { apply sort_of_sorted, sort_sorted; unfold dateDesc; intros; lia. }
  reflexivity.
Qed.

Lemma X6_applyFilters_idempotent_witness :
  let st := run (mount 1560)
                [SetAllPodcasts Samples.catalog; SetSearch (str "s");
                 SetSortKey (str "title-desc")] in
  ConsistentComparator SampleHost.host /\
  applyFilters (H := SampleHost.host)
    (setAllPodcasts (applyFilters (H := SampleHost.host) st) st)
  = applyFilters (H := SampleHost.host) st.
Proof.
  intros st. split; [exact SampleHost_consistent|].
  exact (X6_applyFilters_idempotent SampleHost.host SampleHost_consistent st).
Defined.

(* ================================================================= *)
(** * More on pagination *)

Lemma slice_window {A : Type} (l : list A) (s e : Z) :
  0 <= s <= e ->
  slice l s e = firstn (Z.to_nat (e - s)) (skipn (Z.to_nat s) l).
Proof.
  intros Hse. unfold slice.
  assert (Es : (s <? 0) = false) by (apply Z.ltb_ge; lia).
  assert (Ee : (e <? 0) = false) by (apply Z.ltb_ge; lia).
  rewrite Es, Ee.
  destruct (Z.le_gt_cases s (Z.of_nat (List.length l))) as [Hs | Hs].
  - rewrite (Z.min_l s) by lia.
    destruct (Z.le_gt_cases e (Z.of_nat (List.length l))) as [He | He].
    + rewrite Z.min_l by lia. reflexivity.
    + rewrite Z.min_r by lia.
      rewrite !firstn_all2; auto; rewrite length_skipn; lia.
  - rewrite !Z.min_r by lia. rewrite Nat2Z.id.
    rewrite !skipn_all2 by lia. rewrite !firstn_nil. reflexivity.
Qed.

Lemma firstn_plus {A : Type} (a b : nat) (l : list A) :
  firstn (a + b) l = firstn a l ++ firstn b (skipn a l).
Proof.
  revert l; induction a as [|a IH]; intros l; simpl; auto.
  destruct l as [|x l]; simpl.
  - rewrite firstn_nil. reflexivity.
  - rewrite IH. reflexivity.
Qed.

(** Consecutive windows of width [p] add up to a prefix. *)
Lemma windows_concat {A : Type} (p n : nat) (l : list A) :
  List.concat (map (fun k => firstn p (skipn ((k - 1) * p) l)) (seq 1 n))
  = firstn (n * p) l.
Proof.
  induction n as [|n IH].
  - reflexivity.
  - rewrite seq_S, map_app, concat_app, IH. cbn [map List.concat].
    rewrite app_nil_r. replace (1 + n - 1)%nat with n by lia.
    replace (S n * p)%nat with (n * p + p)%nat by lia.
    symmetry. apply firstn_plus.
Qed.

Section Pagination.
Context {H : Host}.

Lemma totalPages_covers (st : State) :
  0 < pageSize st ->
  Z.of_nat (List.length (filtered st)) <= totalPages st * pageSize st.
Proof.
  intros Hps. unfold totalPages, totalPagesFor.
  pose proof (Math_ceil_div_bounds
                (Z.of_nat (List.length (filtered st))) (pageSize st) Hps).
  nia.
Qed.

Lemma totalPages_tight (st : State) :
  0 < pageSize st -> filtered st <> [] ->
  (totalPages st - 1) * pageSize st < Z.of_nat (List.length (filtered st)).
Proof.
  intros Hps Hne. unfold totalPages, totalPagesFor.
  pose proof (Math_ceil_div_bounds
                (Z.of_nat (List.length (filtered st))) (pageSize st) Hps).
  assert (0 < Z.of_nat (List.length (filtered st))).
  { destruct (filtered st); [contradiction | simpl List.length; lia]. }
  nia.
Qed.

Lemma totalPages_ge_1 (st : State) : 1 <= totalPages st.
Proof. apply totalPagesFor_ge_1. Qed.

(** The page shown, as a window of the filtered list. *)
Lemma paged_window (st : State) :
  0 < pageSize st -> 1 <= page st ->
  paged st
  = firstn (Z.to_nat (pageSize st))
           (skipn (Z.to_nat ((currentPage st - 1) * pageSize st))
                  (filtered st)).
Proof.
  intros Hps Hp. unfold paged.
  assert (1 <= currentPage st).
  { unfold currentPage. pose proof (totalPages_ge_1 st). lia. }
  rewrite slice_window by nia. f_equal. f_equal. lia.
Qed.

Lemma totalPages_empty (st : State) :
  0 < pageSize st -> filtered st = [] -> totalPages st = 1.
Proof.
  intros Hps E. unfold totalPages, totalPagesFor. rewrite E.
  change (Z.of_nat (List.length (@nil Podcast))) with 0.
  rewrite (Math_ceil_div_unique 0 (pageSize st) 0) by lia. reflexivity.
Qed.

(** The page shown starts inside the filtered list, or at its end when
    the list is empty. *)
Lemma currentPage_offset (st : State) :
  0 < pageSize st -> 1 <= page st ->
  0 <= (currentPage st - 1) * pageSize st
    <= Z.of_nat (List.length (filtered st)) /\
  (filtered st <> [] ->
   (currentPage st - 1) * pageSize st
   < Z.of_nat (List.length (filtered st))).
Proof.
  intros Hps Hp.
  assert (1 <= currentPage st <= totalPages st).
  { unfold currentPage. pose proof (totalPages_ge_1 st). lia. }
  destruct (filtered st) as [|x l] eqn:E.
  - rewrite (totalPages_empty st Hps E) in *.
    replace (currentPage st) with 1 by lia. simpl. split; [lia|].
    intros C; contradiction.
  - pose proof (totalPages_tight st Hps) as T. rewrite E in T.
    specialize (T ltac:(discriminate)). split; [|intros _]; nia.
Qed.

Lemma paged_length (st : State) :
  0 < pageSize st -> 1 <= page st ->
  Z.of_nat (List.length (paged st))
  = Z.min (pageSize st)
          (Z.of_nat (List.length (filtered st))
           - (currentPage st - 1) * pageSize st).
Proof.
  intros Hps Hp. rewrite (paged_window st Hps Hp).
  assert (1 <= currentPage st <= totalPages st).
  { unfold currentPage. pose proof (totalPages_ge_1 st). lia. }
  rewrite length_firstn, length_skipn.
  pose proof (currentPage_offset st Hps Hp) as B.
  set (b := (currentPage st - 1) * pageSize st) in *.
  lia.
Qed.

End Pagination.

(** X7. The pages partition the filtered list.  For a positive page size,
    the pages shown for the requests 1, 2, ..., [totalPages], one after
    the other, are the filtered list: every show is on exactly one page
    and in order. *)
Theorem X7_pages_partition_filtered_list (H : Host) (st : State) :
  0 < pageSize st ->
  List.concat (map (fun k => paged (setPage (Z.of_nat k) st))
              (seq 1 (Z.to_nat (totalPages st))))
  = filtered st.
Proof.
  intros Hps.
  pose proof (totalPages_ge_1 st) as T1.
  pose proof (totalPages_covers st Hps) as Tc.
  transitivity
    (List.concat (map (fun k => firstn (Z.to_nat (pageSize st))
                             (skipn ((k - 1) * Z.to_nat (pageSize st))
                                    (filtered st)))
                 (seq 1 (Z.to_nat (totalPages st))))).
  - f_equal. apply map_ext_in. intros k Hk. apply in_seq in Hk.
    rewrite (paged_window (setPage (Z.of_nat k) st)) by (simpl; lia).
    change (filtered (setPage (Z.of_nat k) st)) with (filtered st).
    change (pageSize (setPage (Z.of_nat k) st)) with (pageSize st).
    assert (Ek : currentPage (setPage (Z.of_nat k) st) = Z.of_nat k).
    { unfold currentPage.
      change (totalPages (setPage (Z.of_nat k) st)) with (totalPages st).
      simpl page. lia. }
    rewrite Ek. f_equal. f_equal. nia.
  - rewrite windows_concat. apply firstn_all2. nia.
Qed.

Lemma X7_pages_partition_witness :
  let st := run (mount 1560) [SetAllPodcasts Samples.twentyFive] in
  0 < pageSize st /\
  List.concat (map (fun k => paged (H := SampleHost.host)
                              (setPage (Z.of_nat k) st))
              (seq 1 (Z.to_nat (totalPages (H := SampleHost.host) st))))
  = filtered (H := SampleHost.host) st.
Proof.
  intros st. split; [reflexivity|].
  exact (X7_pages_partition_filtered_list SampleHost.host st eq_refl).
Defined.

(** X8. The size of the page shown.  For a positive page size and a
    requested page of at least 1, the page holds [pageSize] shows, or the
    shows that are left on the last page: never more than [pageSize],
    exactly [pageSize] before the last page, and at least one unless the
    filtered list is empty. *)
Theorem X8_page_length (H : Host) (st : State) :
  0 < pageSize st -> 1 <= page st ->
  Z.of_nat (List.length (paged st))
  = Z.min (pageSize st)
          (Z.of_nat (List.length (filtered st))
           - (currentPage st - 1) * pageSize st) /\
  Z.of_nat (List.length (paged st)) <= pageSize st /\
  (currentPage st < totalPages st ->
   Z.of_nat (List.length (paged st)) = pageSize st) /\
  (filtered st <> [] -> paged st <> []).
Proof.
  intros Hps Hp.
  pose proof (paged_length st Hps Hp) as L.
  pose proof (currentPage_offset st Hps Hp) as [B Bne].
  split; [exact L|]. split; [lia|]. split.
  - intros Hlt.
    assert (filtered st <> []) as Hne.
    { intros E. rewrite (totalPages_empty st Hps E) in Hlt.
      unfold currentPage in Hlt. pose proof (totalPages_ge_1 st). lia. }
    pose proof (totalPages_tight st Hps Hne). nia.
  - intros Hne E. rewrite E in L. simpl List.length in L.
    specialize (Bne Hne). lia.
Qed.

Lemma X8_page_length_witness :
  let st := run (mount 1000)
                [SetAllPodcasts Samples.twentyFive; SetPage 3] in
  0 < pageSize st /\ 1 <= page st /\
  Z.of_nat (List.length (paged (H := SampleHost.host) st)) = Z.min 10 (25 - 20).
Proof.
  intros st. split; [reflexivity|]. split; [discriminate|].
  exact (proj1 (X8_page_length SampleHost.host st eq_refl
                  ltac:(discriminate))).
Defined.

(** The requested page stays at 1 or above when no request is below 1. *)
Lemma step_page_ge_1 (st : State) (ev : Event) :
  1 <= page st -> (forall n, ev = SetPage n -> 1 <= n) ->
  1 <= page (step st ev).
Proof.
  intros Hp Hev. unfold step, resetEffect.
  destruct (sameFilters st (dispatch ev st)); [|simpl; lia].
  destruct ev; simpl; auto; apply Hev; reflexivity.
Qed.

(** X9. As long as every [setPage] request is at least 1, the provider,
    once mounted, keeps the requested page at 1 or above and the page size
    at 6 or above.  The page number it exposes then lies between 1 and
    [totalPages], the page holds at most [pageSize] shows, and it is empty
    only when no show passes the filters. *)
Theorem X9_valid_requests_keep_view_in_range
    (H : Host) (w : Z) (evs : list Event) :
  Forall (fun ev => forall n, ev = SetPage n -> 1 <= n) evs ->
  let st := run (mount w) evs in
  1 <= page st /\ 6 <= pageSize st /\
  1 <= value_page (value st) <= value_totalPages (value st) /\
  Z.of_nat (List.length (value_podcasts (value st))) <= pageSize st /\
  (value_podcasts (value st) = [] <-> filtered st = []).
Proof.
  intros Hev st.
  assert (Hps : 6 <= pageSize st).
  { apply run_pageSize_pos. apply pageSizeFor_ge_6. }
  assert (Hp : 1 <= page st).
  { unfold st. clear Hps st.
    assert (Hm : 1 <= page (mount w)) by (simpl; lia).
    revert Hm. generalize (mount w).
    induction Hev as [|ev evs Hn _ IH]; intros s Hs; simpl; auto.
    apply IH, step_page_ge_1; auto. }
  assert (Hps' : 0 < pageSize st) by lia.
  pose proof (totalPages_ge_1 st) as T.
  pose proof (paged_length st Hps' Hp) as L.
  pose proof (currentPage_offset st Hps' Hp) as [B Bne].
  simpl value_page. simpl value_totalPages. simpl value_podcasts.
  split; [exact Hp|]. split; [exact Hps|].
  split; [unfold currentPage; lia|]. split; [lia|]. split.
  - intros E. destruct (filtered st) as [|x l] eqn:F; auto.
    rewrite E in L. specialize (Bne ltac:(discriminate)).
    simpl List.length in *. lia.
  - intros F. rewrite F in L, B. simpl List.length in *.
    destruct (paged st); auto. simpl List.length in L. lia.
Qed.

Lemma X9_valid_requests_witness :
  let evs := [SetAllPodcasts Samples.twentyFive; SetPage 3; Resize 1560] in
  Forall (fun ev => forall n, ev = SetPage n -> 1 <= n) evs /\
  1 <= value_page (value (H := SampleHost.host) (run (mount 1000) evs))
    <= value_totalPages (value (H := SampleHost.host) (run (mount 1000) evs)).
Proof.
  intros evs.
  assert (Hev : Forall (fun ev => forall n, ev = SetPage n -> 1 <= n) evs).
  { repeat constructor; intros n E; try discriminate.
    injection E as <-. discriminate. }
  split; [exact Hev|].
  exact (proj1 (proj2 (proj2
           (X9_valid_requests_keep_view_in_range
              SampleHost.host 1000 evs Hev)))).
Defined.

(** X10. A requested page of 0 is not clamped: for a positive page size
    the page number exposed is 0 and the page shown is empty, whatever the
    filtered list holds. *)
Theorem X10_page_zero_shows_nothing (H : Host) (st : State) :
  0 < pageSize st -> page st = 0 ->
  value_page (value st) = 0 /\ value_podcasts (value st) = [] /\
  1 <= value_totalPages (value st).
Proof.
  intros Hps Hp. pose proof (totalPages_ge_1 st) as T.
  assert (Hc : currentPage st = 0) by (unfold currentPage; lia).
  simpl. split; [exact Hc|]. split; [|exact T].
  unfold paged, slice. rewrite Hc.
  assert (E1 : ((0 - 1) * pageSize st <? 0) = true)
    by (apply Z.ltb_lt; lia).
  rewrite E1. change (0 * pageSize st <? 0) with false. cbv iota.
  rewrite (Z.min_l (0 * pageSize st)) by lia.
  replace (Z.to_nat (0 * pageSize st - _)) with 0%nat by lia.
  reflexivity.
Qed.

Lemma X10_page_zero_witness :
  let st := run (mount 1000) [SetAllPodcasts Samples.twentyFive; SetPage 0] in
  0 < pageSize st /\ page st = 0 /\
  value_podcasts (value (H := SampleHost.host) st) = [].
Proof.
  intros st. split; [reflexivity|]. split; [reflexivity|].
  exact (proj1 (proj2 (X10_page_zero_shows_nothing
                         SampleHost.host st eq_refl eq_refl))).
Defined.

(** X11. How the requested page evolves.  After an event it is the
    argument of [setPage] if the event is such a call; it is 1 if the event
    stores a search text, sort key or genre different from the current
    one; in every other case, which includes storing the current value
    again, a new dataset, the loading flag, the error and a resize, the
    whole query (page, search text, sort key, genre) is as before. *)
Theorem X11_page_evolution (st : State) (ev : Event) :
  (forall n, ev = SetPage n -> page (step st ev) = n) /\
  ((exists v, (ev = SetSearch v /\ v <> search st) \/
              (ev = SetSortKey v /\ v <> sortKey st) \/
              (ev = SetGenre v /\ v <> genre st)) ->
   page (step st ev) = 1) /\
  ((forall n, ev <> SetPage n) ->
   (forall v, ev = SetSearch v -> v = search st) ->
   (forall v, ev = SetSortKey v -> v = sortKey st) ->
   (forall v, ev = SetGenre v -> v = genre st) ->
   page (step st ev) = page st /\ search (step st ev) = search st /\
   sortKey (step st ev) = sortKey st /\ genre (step st ev) = genre st).
Proof.
  split; [|split].
  - intros n ->. unfold step, resetEffect, sameFilters. simpl.
    rewrite !eqb_refl. reflexivity.
  - intros (v & [[-> Hv] | [[-> Hv] | [-> Hv]]]);
      unfold step, resetEffect, sameFilters; simpl;
      assert (E : forall a, a <> v -> JS.eqb a v = false)
        by (intros a Ha; apply eqb_neq; exact Ha);
      rewrite E by congruence; rewrite ?eqb_refl; reflexivity.
  - intros Hn Hs Hk Hg. unfold step, resetEffect, sameFilters.
    destruct ev as [v | v | v | n | w | D | e | b]; simpl;
      try (rewrite (Hs v eq_refl)); try (rewrite (Hk v eq_refl));
      try (rewrite (Hg v eq_refl)); rewrite ?eqb_refl; simpl; auto.
    exfalso. apply (Hn n). reflexivity.
Qed.

Lemma X11_page_evolution_witness :
  let st := run (mount 1560) [SetAllPodcasts Samples.catalog; SetPage 2] in
  page (step st (SetSortKey (str "date-desc"))) = 2 /\
  page (step st (SetAllPodcasts [])) = 2 /\
  page (step st (SetSortKey (str "date-asc"))) = 1.
Proof.
  intros st.
  split; [|split].
  - apply (proj2 (proj2 (X11_page_evolution st (SetSortKey (str "date-desc")))));
      try discriminate; intros v E; injection E as <-; reflexivity.
  - apply (proj2 (proj2 (X11_page_evolution st (SetAllPodcasts []))));
      discriminate.
  - apply (proj1 (proj2 (X11_page_evolution st (SetSortKey (str "date-asc"))))).
    exists (str "date-asc"). right. left. split; [reflexivity | discriminate].
Defined.

(* ================================================================= *)
(** * More on the page size *)

(** X12. The page size the provider holds after mounting is always the
    value computed for some window width; it is even and at least 6, so
    the division by it is never a division by zero.  On wide windows
    (above 1024) it grows with the width, and it is below the narrow
    layout's 10 exactly for the widths from 1025 to 1299. *)
Theorem X12_page_size_invariant (w : Z) (evs : list Event) :
  let st := run (mount w) evs in
  (exists w', pageSize st = pageSizeFor w') /\
  6 <= pageSize st /\ Z.even (pageSize st) = true /\
  (forall w1 w2, 1024 < w1 -> w1 <= w2 -> pageSizeFor w1 <= pageSizeFor w2) /\
  (forall w', pageSizeFor w' < 10 <-> 1024 < w' < 1300).
Proof.
  intros st.
  assert (Hex : exists w', pageSize st = pageSizeFor w').
  { unfold st. assert (Hm : exists w', pageSize (mount w) = pageSizeFor w')
      by (exists w; reflexivity).
    revert Hm. generalize (mount w).
    induction evs as [|ev evs IH]; intros s Hs; simpl; auto.
    apply IH. unfold step.
    destruct (resetEffect_fields s (dispatch ev s))
      as (_ & _ & _ & _ & _ & _ & ->).
    destruct ev; simpl; auto. eexists; reflexivity. }
  split; [exact Hex|]. destruct Hex as [w' ->].
  split; [apply pageSizeFor_ge_6|]. split; [|split].
  - unfold pageSizeFor. destruct (w' <=? 1024); [reflexivity|].
    cbv zeta. rewrite Z.even_mul. apply orb_true_r.
  - intros w1 w2 H1 H12.
    rewrite !pageSizeFor_wide by lia.
    pose proof (Z.div_le_mono w1 w2 260 ltac:(lia) H12). lia.
  - intros x. destruct (Z.le_gt_cases x 1024) as [Hn | Hw].
    + rewrite pageSizeFor_narrow by exact Hn. lia.
    + rewrite pageSizeFor_wide by lia.
      destruct (Z.lt_ge_cases x 1300) as [Hlt | Hge].
      * assert (x / 260 < 5) by (apply Z.div_lt_upper_bound; lia). lia.
      * assert (5 <= x / 260) by (apply Z.div_le_lower_bound; lia). lia.
Qed.

(* ================================================================= *)
(** * More on the genre tags and the navigation to a show *)

Lemma str_inj (a b : string) : str a = str b -> a = b.
Proof.
  unfold str. intros E.
  apply (f_equal (map ascii_of_N)) in E.
  rewrite !map_map in E.
  rewrite !(map_ext _ (fun x => x) ascii_N_embedding), !map_id in E.
  apply (f_equal string_of_list_ascii) in E.
  rewrite !string_of_list_ascii_of_string in E. exact E.
Qed.

Lemma to_int_not_nil (z : Z) :
  Z.to_int z <> Decimal.Pos Decimal.Nil /\
  Z.to_int z <> Decimal.Neg Decimal.Nil.
Proof.
  split; intros E; pose proof (f_equal Z.of_int E) as E';
    rewrite DecimalZ.of_to in E'; simpl in E'; subst z;
    vm_compute in E; discriminate.
Qed.

(** Printing an integer in decimal loses nothing. *)
Lemma Number_toString_inj (a b : Z) :
  Number_toString a = Number_toString b -> a = b.
Proof.
  unfold Number_toString. intros E. apply str_inj in E.
  apply DecimalZ.to_int_inj.
  destruct (to_int_not_nil a) as [A1 A2], (to_int_not_nil b) as [B1 B2].
  pose proof (NilZero.isi (Z.to_int a) A1 A2) as Ia.
  pose proof (NilZero.isi (Z.to_int b) B1 B2) as Ib.
  rewrite E in Ia. congruence.
Qed.

(** X13. For a genre id that has entries in the genre table the tag text
    is the title of the first of them; the tags come one per id, in the
    order of the show's genre array. *)
Theorem X13_known_genre_shows_first_title
    (before after : list GenreTags.Genre) (g : GenreTags.Genre)
    (ids : list Z) :
  (forall g', In g' before -> GenreTags.id g' <> GenreTags.id g) ->
  let genreMap := before ++ g :: after in
  GenreTags.tagText genreMap (GenreTags.id g) = GenreTags.title g /\
  exists tags,
    GenreTags.GenreTags genreMap (Some ids) = Some tags /\
    map fst tags = ids /\
    (forall text, In (GenreTags.id g, text) tags -> text = GenreTags.title g).
Proof.
  intros Hb genreMap.
  assert (Ht : GenreTags.tagText genreMap (GenreTags.id g)
               = GenreTags.title g).
  { unfold GenreTags.tagText, genreMap.
    induction before as [|x before IH]; simpl.
    - rewrite Z.eqb_refl. reflexivity.
    - assert (Hx : (GenreTags.id x =? GenreTags.id g) = false)
        by (apply Z.eqb_neq, Hb; simpl; auto).
      rewrite Hx. apply IH. intros g' Hg'. apply Hb. simpl; auto. }
  split; [exact Ht|].
  eexists. split; [reflexivity|]. split.
  - rewrite map_map. simpl. apply map_id.
  - intros text Hin. apply in_map_iff in Hin as (i & E & _).
    injection E as -> <-. exact Ht.
Qed.

Lemma X13_known_genre_witness :
  (forall g', In g' (firstn 2 Samples.genreTable) ->
              GenreTags.id g' <> 3) /\
  GenreTags.tagText Samples.genreTable 3 = str "History".
Proof.
  assert (Hb : forall g', In g' (firstn 2 Samples.genreTable) ->
                          GenreTags.id g' <> 3).
  { intros g' Hg'. simpl in Hg'.
    destruct Hg' as [<- | [<- | []]]; discriminate. }
  split; [exact Hb|].
  exact (proj1 (X13_known_genre_shows_first_title
                  (firstn 2 Samples.genreTable) []
                  {| GenreTags.id := 3; GenreTags.title := str "History" |}
                  [] Hb)).
Defined.

(** X14. A click on a card navigates to [/show/<id>] and hands over the
    card's genre array.  Different ids give different paths, and the tags
    rendered from the handed-over array are one per genre id of the
    card. *)
Theorem X14_card_navigation
    (genreMap : list GenreTags.Genre) (p q : PodcastContext.Podcast) :
  PodcastCard.path (PodcastCard.handleNavigate p)
  = str "/show/" ++ Number_toString (PodcastContext.id p) /\
  (PodcastCard.path (PodcastCard.handleNavigate p)
   = PodcastCard.path (PodcastCard.handleNavigate q) ->
   PodcastContext.id p = PodcastContext.id q) /\
  exists tags,
    GenreTags.GenreTags genreMap
      (ShowDetail.genresOf
         (PodcastCard.nav_state (PodcastCard.handleNavigate p)))
    = Some tags /\
    map fst tags = PodcastContext.genres p.
Proof.
  split; [reflexivity|]. split.
  - unfold PodcastCard.handleNavigate. cbn [PodcastCard.path].
    intros E. apply app_inv_head in E. apply Number_toString_inj, E.
  - eexists. split; [reflexivity|].
    rewrite map_map. simpl. apply map_id.
Qed.

Lemma X14_card_navigation_witness :
  let card := Samples.show 3 "Scamfluencers" 1678233600000 [3; 99] in
  PodcastCard.path (PodcastCard.handleNavigate card) = str "/show/3" /\
  (PodcastCard.path (PodcastCard.handleNavigate card)
   = PodcastCard.path (PodcastCard.handleNavigate card) ->
   PodcastContext.id card = PodcastContext.id card).
Proof.
  intros card. split; [reflexivity|].
  exact (proj1 (proj2 (X14_card_navigation Samples.genreTable card card))).
Defined.

(* ================================================================= *)
(** * More on the show detail *)

Lemma fold_left_episodes (l : list PodcastDetail.Season) (a : Z) :
  fold_left
    (fun acc s' => acc + Z.of_nat (List.length (PodcastDetail.episodes s')))
    l a
  = a + Z.of_nat (List.length
                    (List.concat (map PodcastDetail.episodes l))).
Proof.
  revert a. induction l as [|s l IH]; intros a; simpl.
  - lia.
  - rewrite IH, length_app. lia.
Qed.

Lemma map_fst_combine {A B : Type} (l : list A) (l' : list B) :
  List.length l = List.length l' -> map fst (combine l l') = l.
Proof.
  revert l'; induction l as [|a l IH]; intros [|b l'] E; simpl in *;
    try discriminate; auto.
  rewrite IH by lia. reflexivity.
Qed.

Lemma map_snd_combine {A B : Type} (l : list A) (l' : list B) :
  List.length l = List.length l' -> map snd (combine l l') = l'.
Proof.
  revert l'; induction l as [|a l IH]; intros [|b l'] E; simpl in *;
    try discriminate; auto.
  rewrite IH by lia. reflexivity.
Qed.

Lemma render_fields (inst : PodcastDetail.Instance)
      (view : PodcastDetail.View) :
  PodcastDetail.render inst = Some view ->
  exists s,
    PodcastDetail.season inst = Some s /\
    PodcastDetail.seasonCover view = PodcastDetail.season_image s /\
    PodcastDetail.seasonHeading view = PodcastDetail.season_title s /\
    PodcastDetail.seasonNumber view
    = PodcastDetail.selectedSeasonIndex inst + 1 /\
    PodcastDetail.seasonEpisodes view
    = Z.of_nat (List.length (PodcastDetail.episodes s)) /\
    PodcastDetail.dropdownValue view
    = PodcastDetail.selectedSeasonIndex inst /\
    PodcastDetail.totalSeasons view
    = Z.of_nat (List.length
                  (PodcastDetail.seasons (PodcastDetail.podcast inst))) /\
    PodcastDetail.totalEpisodes view
    = Z.of_nat (List.length
                  (List.concat
                     (map PodcastDetail.episodes
                          (PodcastDetail.seasons
                             (PodcastDetail.podcast inst))))) /\
    PodcastDetail.episodeCards view
    = combine (map (fun i => Z.of_nat i + 1)
                   (seq 0 (List.length (PodcastDetail.episodes s))))
              (map PodcastDetail.ep_title (PodcastDetail.episodes s)).
Proof.
  unfold PodcastDetail.render.
  destruct (PodcastDetail.season inst) as [s|]; [|discriminate].
  intros E. injection E as <-. exists s. simpl.
  rewrite fold_left_episodes. repeat split; reflexivity.
Qed.

(** X15. Picking an entry of the season dropdown shows that season.  When
    the event is accepted, the value is the position of a season of the
    show, and the next view is headed by that season's number (position
    plus one), title and cover, lists its episodes, and has the dropdown
    set to the value. *)
Theorem X15_select_shows_that_season
    (inst inst' : PodcastDetail.Instance) (v : Z) :
  PodcastDetail.step inst (PodcastDetail.Select v) = Some inst' ->
  PodcastDetail.podcast inst' = PodcastDetail.podcast inst /\
  exists s view,
    0 <= v /\
    nth_error (PodcastDetail.seasons (PodcastDetail.podcast inst))
              (Z.to_nat v) = Some s /\
    PodcastDetail.render inst' = Some view /\
    PodcastDetail.seasonNumber view = v + 1 /\
    PodcastDetail.seasonHeading view = PodcastDetail.season_title s /\
    PodcastDetail.seasonCover view = PodcastDetail.season_image s /\
    PodcastDetail.seasonEpisodes view
    = Z.of_nat (List.length (PodcastDetail.episodes s)) /\
    map snd (PodcastDetail.episodeCards view)
    = map PodcastDetail.ep_title (PodcastDetail.episodes s) /\
    PodcastDetail.dropdownValue view = v.
Proof.
  simpl. destruct (PodcastDetail.render inst) as [view0|] eqn:R;
    [|discriminate].
  destruct (existsb (Z.eqb v) (PodcastDetail.dropdown view0)) eqn:Ex;
    [|discriminate].
  intros E. injection E as <-. split; [reflexivity|].
  rewrite (render_dropdown inst view0 R) in Ex.
  apply optionValues_range in Ex.
  destruct (proj2 (index_Some_iff
                     (PodcastDetail.seasons (PodcastDetail.podcast inst)) v)
                  Ex) as [s Hs].
  set (next := {| PodcastDetail.podcast := PodcastDetail.podcast inst;
                  PodcastDetail.selectedSeasonIndex := v |}).
  assert (Hseason : PodcastDetail.season next = Some s) by exact Hs.
  destruct (PodcastDetail.render next) as [view|] eqn:R';
    [|unfold PodcastDetail.render in R'; rewrite Hseason in R';
      discriminate].
  destruct (render_fields next view R')
    as (s' & Hs' & Hc & Hh & Hn & He & Hd & _ & _ & Hcards).
  rewrite Hseason in Hs'. injection Hs' as <-.
  exists s, view. split; [lia|]. split.
  - unfold index in Hs. destruct (v <? 0); [discriminate | exact Hs].
  - repeat split; auto.
    rewrite Hcards. apply map_snd_combine.
    rewrite !length_map, length_seq. reflexivity.
Qed.

Lemma X15_select_witness :
  let selected := {| PodcastDetail.podcast := Samples.threeSeasons;
                     PodcastDetail.selectedSeasonIndex := 2 |} in
  PodcastDetail.step (PodcastDetail.mount Samples.threeSeasons)
                     (PodcastDetail.Select 2) = Some selected /\
  exists s view,
    0 <= 2 /\
    nth_error (PodcastDetail.seasons Samples.threeSeasons) (Z.to_nat 2)
    = Some s /\
    PodcastDetail.render selected = Some view /\
    PodcastDetail.seasonNumber view = 2 + 1.
Proof.
  intros selected. split; [reflexivity|].
  destruct (X15_select_shows_that_season
              (PodcastDetail.mount Samples.threeSeasons) selected 2 eq_refl)
    as (_ & s & view & H0 & Hn & Hr & Hnum & _).
  exists s, view. auto.
Defined.

(** X16. What a rendered season view always shows: one dropdown entry per
    season, numbered from 0; a season number between 1 and the number of
    seasons; the episode cards of the season numbered from 1; and a total
    episode count that is the number of episodes of all seasons, so never
    below the count of the season shown. *)
Theorem X16_rendered_view_is_consistent
    (inst : PodcastDetail.Instance) (view : PodcastDetail.View) :
  PodcastDetail.render inst = Some view ->
  PodcastDetail.dropdown view
  = map Z.of_nat (seq 0 (Z.to_nat (PodcastDetail.totalSeasons view))) /\
  1 <= PodcastDetail.seasonNumber view <= PodcastDetail.totalSeasons view /\
  In (PodcastDetail.dropdownValue view) (PodcastDetail.dropdown view) /\
  map fst (PodcastDetail.episodeCards view)
  = map Z.of_nat (seq 1 (Z.to_nat (PodcastDetail.seasonEpisodes view))) /\
  PodcastDetail.totalEpisodes view
  = Z.of_nat (List.length
                (List.concat
                   (map PodcastDetail.episodes
                        (PodcastDetail.seasons
                           (PodcastDetail.podcast inst))))) /\
  0 <= PodcastDetail.seasonEpisodes view
    <= PodcastDetail.totalEpisodes view.
Proof.
  intros R.
  destruct (render_fields inst view R)
    as (s & Hs & _ & _ & Hn & He & Hd & Ht & Hte & Hcards).
  pose proof (proj1 (index_Some_iff _ _) (ex_intro _ s Hs)) as Hi.
  rewrite (render_dropdown inst view R), Ht, Hn, Hd, He, Hte, Hcards.
  rewrite !Nat2Z.id.
  split; [reflexivity|]. split; [lia|]. split; [|split; [|split]].
  - unfold PodcastDetail.optionValues. apply in_map_iff.
    exists (Z.to_nat (PodcastDetail.selectedSeasonIndex inst)).
    split; [lia|]. apply in_seq. lia.
  - rewrite map_fst_combine by (rewrite !length_map, length_seq; reflexivity).
    rewrite <- seq_shift, map_map. apply map_ext. intros i. lia.
  - reflexivity.
  - split; [lia|].
    unfold PodcastDetail.season, index in Hs.
    destruct (PodcastDetail.selectedSeasonIndex inst <? 0); [discriminate|].
    apply nth_error_split in Hs as (l1 & l2 & E & _).
    rewrite E, map_app, concat_app, length_app. simpl.
    rewrite length_app. lia.
Qed.

Lemma X16_rendered_view_witness :
  exists view,
    PodcastDetail.render (PodcastDetail.mount Samples.threeSeasons)
    = Some view /\
    PodcastDetail.dropdown view = [0; 1; 2] /\
    PodcastDetail.totalEpisodes view = 6.
Proof.
  destruct (PodcastDetail.render (PodcastDetail.mount Samples.threeSeasons))
    as [view|] eqn:R; [|discriminate].
  destruct (X16_rendered_view_is_consistent _ view R)
    as (Hd & _ & _ & _ & He & _).
  exists view. split; [reflexivity|].
  vm_compute in R. injection R as <-. split; reflexivity.
Defined.

(* ================================================================= *)
(** * The pages *)

(** X17. The show page.  While it is loading or holds an error message it
    renders the loading and error blocks only and cannot fail.  Once
    loaded without error it renders the detail exactly when the fetched
    show has a season at the selected index and the page was reached with
    a navigation state: opened directly (no state) it always fails, and
    reached from a card with a show that has at least one season it
    renders the detail with the card's genres. *)
Theorem X17_show_page_needs_navigation_state
    (genreMap : list GenreTags.Genre) (st : ShowDetail.State) (selected : Z) :
  (ShowDetail.loading st = true \/ messageTruthy (ShowDetail.error st) = true ->
   forall locationState,
   exists parts,
     ShowDetail.ShowDetail genreMap locationState st selected = Some parts /\
     forall tags view, ~ In (ShowDetail.DetailPart tags view) parts) /\
  (ShowDetail.loading st = false ->
   messageTruthy (ShowDetail.error st) = false ->
   ShowDetail.ShowDetail genreMap None st selected = None /\
   (forall locationState parts,
      ShowDetail.ShowDetail genreMap locationState st selected = Some parts ->
      exists genres p s,
        locationState = Some genres /\ ShowDetail.podcast st = Some p /\
        index (PodcastDetail.seasons p) selected = Some s) /\
   (forall (card : PodcastContext.Podcast) (p : PodcastDetail.Podcast),
      ShowDetail.podcast st = Some p -> PodcastDetail.seasons p <> [] ->
      exists tags view,
        ShowDetail.ShowDetail genreMap
          (PodcastCard.nav_state (PodcastCard.handleNavigate card)) st 0
        = Some [ShowDetail.DetailPart tags view] /\
        map fst tags = PodcastContext.genres card)).
Proof.
  split.
  - intros Hbusy locationState. unfold ShowDetail.ShowDetail.
    assert (E : negb (ShowDetail.loading st)
                && negb (messageTruthy (ShowDetail.error st)) = false).
    { destruct Hbusy as [-> | ->]; [reflexivity | apply andb_false_r]. }
    rewrite E. eexists. split; [reflexivity|].
    intros tags view Hin. apply in_app_or in Hin as [Hin | Hin].
    + destruct (ShowDetail.loading st); simpl in Hin;
        [destruct Hin as [C | []]; discriminate | contradiction].
    + destruct (messageTruthy (ShowDetail.error st)); simpl in Hin;
        [destruct Hin as [C | []]; discriminate | contradiction].
  - intros Hl He. unfold ShowDetail.ShowDetail. rewrite Hl, He. simpl.
    split; [|split].
    + unfold ShowDetail.detail. destruct (ShowDetail.podcast st); auto.
      simpl. destruct (PodcastDetail.render _); reflexivity.
    + intros locationState parts.
      unfold ShowDetail.detail.
      destruct (ShowDetail.podcast st) as [p|]; [|discriminate].
      destruct (PodcastDetail.render _) as [view|] eqn:R; [|discriminate].
      destruct locationState as [genres|]; [|discriminate].
      intros _. apply render_fields in R as (s & Hs & _).
      exists genres, p, s. auto.
    + intros card p -> Hne. unfold ShowDetail.detail.
      destruct (PodcastDetail.render
                  {| PodcastDetail.podcast := p;
                     PodcastDetail.selectedSeasonIndex := 0 |})
        as [view|] eqn:R.
      * simpl. eexists _, view. split; [reflexivity|].
        rewrite map_map. simpl. apply map_id.
      * exfalso. unfold PodcastDetail.render, PodcastDetail.season in R.
        simpl in R. destruct (PodcastDetail.seasons p); [contradiction|].
        discriminate.
Qed.

Lemma X17_show_page_witness :
  let st := {| ShowDetail.podcast := Some Samples.threeSeasons;
               ShowDetail.loading := false;
               ShowDetail.error := None |} in
  ShowDetail.loading st = false /\
  messageTruthy (ShowDetail.error st) = false /\
  ShowDetail.ShowDetail Samples.genreTable None st 0 = None /\
  exists tags view,
    ShowDetail.ShowDetail Samples.genreTable
      (PodcastCard.nav_state
         (PodcastCard.handleNavigate
            (Samples.show 3 "Scamfluencers" 1678233600000 [3; 99]))) st 0
    = Some [ShowDetail.DetailPart tags view] /\
    map fst tags = [3; 99].
Proof.
  intros st. split; [reflexivity|]. split; [reflexivity|].
  destruct (proj2 (X17_show_page_needs_navigation_state
                     Samples.genreTable st 0) eq_refl eq_refl)
    as (Hdirect & _ & Hcard).
  split; [exact Hdirect|].
  apply (Hcard (Samples.show 3 "Scamfluencers" 1678233600000 [3; 99])
               Samples.threeSeasons eq_refl).
  discriminate.
Defined.

Lemma messageTruthy_iff (e : option jsstring) :
  messageTruthy e = true <-> exists m, e = Some m /\ m <> [].
Proof.
  destruct e as [[|c m]|]; simpl; split; try discriminate.
  - intros (m & E & Hm). injection E as <-. contradiction.
  - intros _. exists (c :: m). split; [reflexivity | discriminate].
  - intros _. reflexivity.
  - intros (m & E & _). discriminate.
Qed.

(** X18. The home page is never blank and never shows the list while
    loading or in error: below the controls it shows the loading
    indicator exactly while [loading] is set, the error message (with the
    stored text appended) exactly while [error] holds a non-empty message,
    and the grid with the pagination exactly when neither is the case.  An
    empty error message counts as no error. *)
Theorem X18_home_page_blocks (st : State) :
  hd_error (Home.Home st) = Some Home.Controls /\
  (2 <= List.length (Home.Home st))%nat /\
  (In (Home.LoadingPart (str "Loading podcasts...")) (Home.Home st)
   <-> loading st = true) /\
  ((exists m, In (Home.ErrorPart m) (Home.Home st))
   <-> exists e, error st = Some e /\ e <> []) /\
  (forall m, In (Home.ErrorPart m) (Home.Home st) ->
     exists e, error st = Some e /\
       m = str "Error occurred while fetching podcasts: " ++ e) /\
  (In Home.GridAndPagination (Home.Home st)
   <-> loading st = false /\ messageTruthy (error st) = false).
Proof.
  unfold Home.Home.
  rewrite <- messageTruthy_iff.
  assert (Htext : messageTruthy (error st) = true ->
                  exists e, error st = Some e /\ messageText (error st) = e).
  { destruct (error st) as [e|]; [|discriminate]. intros _. eauto. }
  destruct (loading st) eqn:L, (messageTruthy (error st)) eqn:M;
    cbn [app hd_error List.length negb andb In];
    (split; [reflexivity|]); (split; [lia|]);
    (split; [split; [intros Hin; try reflexivity;
                     repeat (destruct Hin as [Hin | Hin]; try discriminate Hin);
                     try contradiction
                    | intros Hl; try discriminate Hl; auto]|]);
    (split; [split; [intros [m Hin]; try reflexivity;
                     repeat (destruct Hin as [Hin | Hin]; try discriminate Hin);
                     try contradiction
                    | intros Ht; try discriminate Ht; eexists; eauto]|]);
    (split; [intros m Hin;
             repeat (destruct Hin as [Hin | Hin]; try discriminate Hin);
             try contradiction;
             injection Hin as <-;
             destruct (Htext eq_refl) as (e & E1 & E2);
             exists e; rewrite E2; auto|]);
    (split; [intros Hin; try (split; reflexivity);
             repeat (destruct Hin as [Hin | Hin]; try discriminate Hin);
             try contradiction
            | intros [Hl Ht]; try discriminate Hl; try discriminate Ht;
              auto]).
Qed.
